(** * mochad_dispatch: the TCP-to-HTTP bridge of [mochad_dispatch.py]

    A shallow embedding of [MochadClient] and theorems about its line
    parser, its dispatcher and its worker loop.

    Conventions of the embedding:
    - a Python [str] is a list of Unicode code points, a [bytes] object a
      list of [Byte.byte];
    - a Python exception is a value of [pyexn]; code that may raise
      returns a [result];
    - a Python [float] is the rational it stands for; the difference of
      two floats is the exact difference rounded to the nearest double;
    - the event loop, the socket, the clock and the HTTP server are the
      environment: their answers are inputs of the model. *)

From Stdlib Require Import List Bool Arith NArith ZArith QArith Lia Lqa.
From Stdlib Require Import Qpower Qround.
From Stdlib.Strings Require Import Ascii String Byte.
Import ListNotations.

Set Implicit Arguments.

(** ** Python values *)

Module Py.

Local Open Scope N_scope.

(** Code points and strings. *)
Definition char := N.
Definition str := list char.
Definition bytes := list Byte.byte.

(** A string literal of the source, as a [str]. *)
Definition lit (s : string) : str :=
  List.map N_of_ascii (list_ascii_of_string s).

(** A bytes literal of the wire. *)
Definition blit (s : string) : bytes := list_byte_of_string s.

Definition str_eqb (a b : str) : bool :=
  if list_eq_dec N.eq_dec a b then true else false.

(** Truthiness of a [str]: the empty string is false. *)
Definition truthy (s : str) : bool :=
  match s with [] => false | _ :: _ => true end.

(** [s[lo:hi]] for constant bounds [0 <= lo <= hi]: out-of-range bounds
    are clamped, nothing is raised. *)
Definition slice (lo hi : nat) (s : str) : str :=
  firstn (hi - lo) (skipn lo s).

(** [s[lo:]]. *)
Definition slice_from (lo : nat) (s : str) : str := skipn lo s.

(** Exceptions: the subclasses of [Exception].  [OSError] stands for
    the class with its subclasses ([ConnectionRefusedError],
    [ConnectionResetError], [socket.gaierror], ...); [OtherException] for
    any other subclass of [Exception].  The argument is [str(e)]. *)
Inductive pyexn :=
| OSError (msg : str)
| UnicodeDecodeError (msg : str)
| UnicodeEncodeError (msg : str)
| IndexError (msg : str)
| OtherException (msg : str).

Definition exn_str (e : pyexn) : str :=
  match e with
  | OSError m | UnicodeDecodeError m | UnicodeEncodeError m
  | IndexError m | OtherException m => m
  end.

Definition is_OSError (e : pyexn) : bool :=
  match e with OSError _ => true | _ => false end.

Inductive result (A : Type) :=
| Ok (a : A)
| Raise (e : pyexn).
Arguments Raise {A} e.

(** [s[-1]]. *)
Definition last_char (s : str) : result char :=
  match rev s with
  | [] => Raise (IndexError (lit "string index out of range"))
  | c :: _ => Ok c
  end.

(** *** [str.rstrip()] *)

(** [str.isspace] on one code point. *)
Definition isspace (c : char) : bool :=
  ((0x09 <=? c) && (c <=? 0x0D)) || ((0x1C <=? c) && (c <=? 0x20))
  || (c =? 0x85) || (c =? 0xA0) || (c =? 0x1680)
  || ((0x2000 <=? c) && (c <=? 0x200A))
  || (c =? 0x2028) || (c =? 0x2029) || (c =? 0x202F) || (c =? 0x205F)
  || (c =? 0x3000).

Fixpoint lstrip (s : str) : str :=
  match s with
  | [] => []
  | c :: r => if isspace c then lstrip r else s
  end.

Definition rstrip (s : str) : str := rev (lstrip (rev s)).

(** *** The strict UTF-8 codec *)

Definition is_cont (b : N) : bool := (0x80 <=? b) && (b <=? 0xBF).

Definition is_surrogate (c : N) : bool := (0xD800 <=? c) && (c <=? 0xDFFF).

Fixpoint utf8_decode (bs : list N) : option str :=
  match bs with
  | [] => Some []
  | b0 :: r0 =>
    if b0 <? 0x80 then option_map (cons b0) (utf8_decode r0)
    else if b0 <? 0xC2 then None
    else if b0 <? 0xE0 then
      match r0 with
      | b1 :: r1 =>
        if is_cont b1
        then option_map (cons ((b0 - 0xC0) * 64 + (b1 - 0x80)))
                        (utf8_decode r1)
        else None
      | _ => None
      end
    else if b0 <? 0xF0 then
      match r0 with
      | b1 :: b2 :: r2 =>
        let c := (b0 - 0xE0) * 4096 + (b1 - 0x80) * 64 + (b2 - 0x80) in
        if is_cont b1 && is_cont b2 && (0x800 <=? c)
           && negb (is_surrogate c)
        then option_map (cons c) (utf8_decode r2)
        else None
      | _ => None
      end
    else if b0 <? 0xF5 then
      match r0 with
      | b1 :: b2 :: b3 :: r3 =>
        let c := (b0 - 0xF0) * 262144 + (b1 - 0x80) * 4096
                 + (b2 - 0x80) * 64 + (b3 - 0x80) in
        if is_cont b1 && is_cont b2 && is_cont b3
           && (0x10000 <=? c) && (c <=? 0x10FFFF)
        then option_map (cons c) (utf8_decode r3)
        else None
      | _ => None
      end
    else None
  end.

(** [b.decode("utf-8")]. *)
Definition decode (b : bytes) : result str :=
  match utf8_decode (List.map Byte.to_N b) with
  | Some s => Ok s
  | None =>
    Raise (UnicodeDecodeError (lit "'utf-8' codec can't decode bytes"))
  end.

Definition utf8_encode_char (c : char) : option (list N) :=
  if c <? 0x80 then Some [c]
  else if c <? 0x800 then Some [0xC0 + c / 64; 0x80 + c mod 64]
  else if is_surrogate c then None
  else if c <? 0x10000
  then Some [0xE0 + c / 4096; 0x80 + (c / 64) mod 64; 0x80 + c mod 64]
  else if c <? 0x110000
  then Some [0xF0 + c / 262144; 0x80 + (c / 4096) mod 64;
             0x80 + (c / 64) mod 64; 0x80 + c mod 64]
  else None.

(** *** Decimal and hexadecimal digits *)

Definition digit_char (d : N) : char :=
  if d <? 10 then 48 + d else 55 + d.

(** [n] written with exactly [w] decimal digits, as ["%0wd" % n] does
    for [n < 10^w]. *)
Fixpoint digits (w : nat) (n : N) : str :=
  match w with
  | O => []
  | S w' => digits w' (n / 10) ++ [digit_char (n mod 10)]
  end.

Fixpoint str_of_uint (d : Decimal.uint) : str :=
  match d with
  | Decimal.Nil => []
  | Decimal.D0 r => 48 :: str_of_uint r
  | Decimal.D1 r => 49 :: str_of_uint r
  | Decimal.D2 r => 50 :: str_of_uint r
  | Decimal.D3 r => 51 :: str_of_uint r
  | Decimal.D4 r => 52 :: str_of_uint r
  | Decimal.D5 r => 53 :: str_of_uint r
  | Decimal.D6 r => 54 :: str_of_uint r
  | Decimal.D7 r => 55 :: str_of_uint r
  | Decimal.D8 r => 56 :: str_of_uint r
  | Decimal.D9 r => 57 :: str_of_uint r
  end.

(** [str(z)] for an [int]. *)
Definition str_of_Z (z : Z) : str :=
  match z with
  | Z0 => [48]
  | Zpos p => str_of_uint (Pos.to_uint p)
  | Zneg p => 45 :: str_of_uint (Pos.to_uint p)
  end.

(** *** [urllib.parse.quote] and [datetime.isoformat] *)

Fixpoint utf8_encode (s : str) : option (list N) :=
  match s with
  | [] => Some []
  | c :: r =>
    match utf8_encode_char c, utf8_encode r with
    | Some bs, Some br => Some (bs ++ br)
    | _, _ => None
    end
  end.

(** The characters [quote] never escapes: letters, digits and [_.-~]
    (Python 3.7 and later; earlier versions escape [~], which no
    timestamp contains). *)
Definition always_safe (b : N) : bool :=
  ((65 <=? b) && (b <=? 90)) || ((97 <=? b) && (b <=? 122))
  || ((48 <=? b) && (b <=? 57))
  || (b =? 95) || (b =? 46) || (b =? 45) || (b =? 126).

(** One byte of the encoded string: kept when it is always safe or is
    the default safe character [/], written [%XX] otherwise. *)
Definition quote_byte (b : N) : str :=
  if always_safe b || (b =? 47) then [b]
  else [37; digit_char (b / 16); digit_char (b mod 16)].

(** [urllib.parse.quote(s)]: [s] is encoded to UTF-8 (strict), then
    escaped byte by byte. *)
Definition quote (s : str) : result str :=
  match utf8_encode s with
  | Some bs => Ok (flat_map quote_byte bs)
  | None =>
    Raise (UnicodeEncodeError (lit "'utf-8' codec can't encode character"))
  end.

(** An aware [datetime] in UTC, as [datetime.now(pytz.UTC)] returns it.
    The fields are in the ranges of the class ([year <= 9999],
    [microsecond < 1000000], ...). *)
Record datetime := {
  year : N; month : N; day : N;
  hour : N; minute : N; second : N; microsecond : N
}.

(** [d.isoformat()]: [YYYY-MM-DDTHH:MM:SS[.ffffff]+00:00]. *)
Definition isoformat (d : datetime) : str :=
  digits 4 (year d) ++ lit "-" ++ digits 2 (month d) ++ lit "-"
  ++ digits 2 (day d) ++ lit "T" ++ digits 2 (hour d) ++ lit ":"
  ++ digits 2 (minute d) ++ lit ":" ++ digits 2 (second d)
  ++ (if microsecond d =? 0 then [] else lit "." ++ digits 6 (microsecond d))
  ++ lit "+00:00".

End Py.

Import Py.

(** ** Python floats *)

(** [time.time()] returns a double.  A double is modelled by the
    rational it stands for, and the subtraction of l.95 by the exact
    difference rounded to the nearest double, ties to even.  The
    exponent is not bounded: the clock is far below the overflow
    threshold, and a difference of two doubles that falls in the
    subnormal range is exact. *)

(** Rounding of a rational to the nearest integer, ties to even. *)
Definition rne (y : Q) : Z :=
  let f := Qfloor y in
  match Qcompare (y - inject_Z f) (1 # 2) with
  | Lt => f
  | Gt => (f + 1)%Z
  | Eq => if Z.even f then f else (f + 1)%Z
  end.

(** For [0 < x], the exponent [e] with [2^e <= x < 2^(e+1)]. *)
Definition binade (x : Q) : Z :=
  let k := (Z.log2 (Qnum x) - Z.log2 (Zpos (Qden x)))%Z in
  if Qle_bool (2 ^ k) x then k else (k - 1)%Z.

(** The double nearest to a positive rational: 53 significant bits. *)
Definition round_pos (x : Q) : Q :=
  let s := (binade x - 52)%Z in
  inject_Z (rne (x * 2 ^ (- s))) * 2 ^ s.

Definition double_round (x : Q) : Q :=
  match Qnum x with
  | Z0 => 0
  | Zpos _ => round_pos x
  | Zneg _ => - round_pos (- x)
  end.

(** [a - b] on floats. *)
Definition double_sub (a b : Q) : Q := double_round (a - b).

(** ** The client object *)

(** What the program does to its environment, in the order it does it.
    An event that asks the environment something carries the answer. *)

Inductive level := INFO | WARN | ERROR.

(** The arguments of [aiohttp.post(url, data=..., headers=...)]; [meth]
    is the HTTP method of the call, [POST] for [aiohttp.post]. *)
Record request := {
  meth : str;
  url : str;
  data : str;
  headers : list (str * str)
}.

Record response := { status : Z }.

(** The stream pair [(reader, writer)] of an open connection. *)
Definition handle := nat.

Inductive event :=
| EvSleep (secs : Q)                          (* asyncio.sleep(secs) *)
| EvTime (t : Q)                              (* time.time() *)
| EvConnect (h : str) (port : N) (r : result handle)
                                              (* asyncio.open_connection *)
| EvReadline (r : result bytes)               (* self.reader.readline() *)
| EvLog (lvl : level) (msg : str)             (* self.logger.<lvl>(msg) *)
| EvSpawn (addr func : str)     (* asyncio.Task(self.dispatch_message(..)) *)
| EvPost (rq : request) (r : result response) (* aiohttp.post(..) *)
| EvRelease (rsp : response) (r : result unit). (* response.release() *)

Definition trace := list event.

Record MochadClient := {
  host : str;
  reconnect_time : Q;
  reader : option handle;
  writer : option handle;
  entry_point : str
}.

(** [MochadClient.__init__(self, host, logger, entry_point)].  The logger
    is the sink of the [EvLog] events. *)
Definition __init__ (host0 entry_point0 : str) : result MochadClient :=
  match last_char entry_point0 with
  | Raise e => Raise e
  | Ok c =>
    Ok {| host := host0;
          reconnect_time := 0;
          reader := None;
          writer := None;
          (* ensure entry point ends with / *)
          entry_point := if negb (c =? 47)%N
                         then entry_point0 ++ lit "/"
                         else entry_point0 |}
  end.

(** ** The line parser *)

Definition parse_mochad_line (line : str) : str * str :=
  (* bail out unless it's an incoming RFSEC message *)
  if negb (str_eqb (slice 15 23 line) (lit "Rx RFSEC"))
  then ([], [])
  else
    let addr := slice 30 38 line in
    let func := slice_from 45 line in
    (addr, func).

(** The test the read loop applies to the pair ([if addr and func:]): an
    event is there to dispatch when neither component is blank. *)
Definition event_of (line : str) : option (str * str) :=
  let '(addr, func) := parse_mochad_line line in
  if truthy addr && truthy func then Some (addr, func) else None.

(** ** The dispatcher *)

(** A coroutine of the client: it reads and writes [self], leaves a
    trace, and returns or raises. *)
Definition M (A : Type) : Type :=
  MochadClient -> result A * MochadClient * trace.

Definition ret {A} (a : A) : M A := fun self => (Ok a, self, []).

Definition bind {A B} (m : M A) (k : A -> M B) : M B :=
  fun self =>
    match m self with
    | (Ok a, self1, t1) =>
      let '(r, self2, t2) := k a self1 in (r, self2, t1 ++ t2)
    | (Raise e, self1, t1) => (Raise e, self1, t1)
    end.

Notation "x <- m ;; k" := (bind m (fun x => k))
  (at level 61, m at next level, right associativity).

Definition lift {A} (r : result A) : M A := fun self => (r, self, []).

Definition emit (e : event) : M unit := fun self => (Ok tt, self, [e]).

Definition get_self : M MochadClient := fun self => (Ok self, self, []).

(** [try: body / except Exception as e: handler e]. *)
Definition try_except {A} (body : M A) (handler : pyexn -> M A) : M A :=
  fun self =>
    match body self with
    | (Ok a, self1, t1) => (Ok a, self1, t1)
    | (Raise e, self1, t1) =>
      let '(r, self2, t2) := handler e self1 in (r, self2, t1 ++ t2)
    end.

Section Dispatcher.

(** The environment of one dispatch: the clock and the HTTP peer. *)
Variable now : datetime.
Variable aiohttp_post : request -> result response.
Variable release : response -> result unit.

Definition do_post (rq : request) : M response :=
  fun self => (aiohttp_post rq, self, [EvPost rq (aiohttp_post rq)]).

Definition do_release (rsp : response) : M unit :=
  fun self => (release rsp, self, [EvRelease rsp (release rsp)]).

Definition dispatch_message (addr func : str) : M unit :=
  (* we don't to use mochad's timestamp because it lacks a year *)
  let dispatch_time := isoformat now in
  let fail_msg : str := [] in
  quoted <- lift (quote dispatch_time) ;;
  let post_data := lit "dispatch_time=" ++ quoted ++ lit ";func=" ++ func in
  let hdrs := [(lit "content-type",
                lit "application/x-www-form-urlencoded")] in
  fail_msg <-
    try_except
      (self <- get_self ;;
       rsp <- do_post {| meth := lit "POST";
                         url := entry_point self ++ addr;
                         data := post_data;
                         headers := hdrs |} ;;
       let fail_msg :=
         if negb (status rsp =? 200)%Z
         then lit "HTTP status " ++ str_of_Z (status rsp)
         else fail_msg in
       (* we don't care about the response so just release *)
       _ <- do_release rsp ;;
       ret fail_msg)
      (fun e => ret (lit "Caught exception: " ++ exn_str e)) ;;
  if negb (str_eqb fail_msg (lit ""))
  then emit (EvLog INFO
               (lit "dispatch failed: " ++ fail_msg
                ++ lit " epoch time " ++ dispatch_time
                ++ lit " address " ++ addr ++ lit " func " ++ func))
  else ret tt.

End Dispatcher.

(** ** The worker *)

(** The worker coroutine is a loop that suspends at every [yield from];
    the model also stops at every reading of the clock.  It is embedded
    as a transition system.  A configuration is the client
    object and the point where the coroutine waits for the environment;
    one step takes the environment's answer and runs the code up to the
    next such point. *)

Inductive pc :=
| Sleeping              (* l.92: in asyncio.sleep(1) *)
| Checking              (* l.95: reading time.time() for the deadline *)
| Connecting            (* l.100: in self.connect() *)
| Failing               (* l.103: OSError caught, clock unset, reading time.time() *)
| Reading               (* l.116: in self.reader.readline() *)
| Lost                  (* l.131: reading time.time() *)
| Returned              (* the coroutine returned (break at l.97) *)
| Raised (e : pyexn).   (* the coroutine raised e *)

Record config := { self : MochadClient; at_ : pc }.

Inductive answer :=
| Slept                           (* asyncio.sleep returned *)
| Clock (t : Q)                   (* time.time() returned t *)
| Connected (r : result handle)   (* open_connection returned or raised *)
| Line (r : result bytes).        (* readline returned or raised *)

(** Truthiness of a number: [if self.reconnect_time:]. *)
Definition nonzero (q : Q) : bool := negb (Qeq_bool q 0).

(** [a > b] on clock readings. *)
Definition Qgtb (a b : Q) : bool := negb (Qle_bool a b).

Definition set_reconnect_time (s : MochadClient) (t : Q) : MochadClient :=
  {| host := host s; reconnect_time := t; reader := reader s;
     writer := writer s; entry_point := entry_point s |}.

(** The assignment of [connect]: [self.reader, self.writer = ...]. *)
Definition set_streams (s : MochadClient) (h : handle) : MochadClient :=
  {| host := host s; reconnect_time := reconnect_time s; reader := Some h;
     writer := Some h; entry_point := entry_point s |}.

(** l.89-92: the top of the connection loop. *)
Definition loop_top (s : MochadClient) : config :=
  (* if we are in reconnect status, sleep before connecting *)
  if nonzero (reconnect_time s)
  then {| self := s; at_ := Sleeping |}
  else {| self := s; at_ := Connecting |}.

Definition worker_step (c : config) (a : answer) : option (config * trace) :=
  let s := self c in
  match at_ c, a with
  | Sleeping, Slept =>
    Some ({| self := s; at_ := Checking |}, [EvSleep 1])
  | Checking, Clock t =>
    (* if we've been reconnecting for over 60s, bail out *)
    if Qgtb (double_sub t (reconnect_time s)) 60
    then Some ({| self := s; at_ := Returned |},
               [EvTime t; EvLog ERROR (lit "Could not reconnect after 60s")])
    else Some ({| self := s; at_ := Connecting |}, [EvTime t])
  | Connecting, Connected (Ok h) =>
    (* if we make it this far we've successfully connected, reset the
       reconnect time *)
    let s1 := set_reconnect_time (set_streams s h) 0 in
    Some ({| self := s1; at_ := Reading |},
          [EvConnect (host s) 1099 (Ok h);
           EvLog INFO (lit "Connected to mochad")])
  | Connecting, Connected (Raise e) =>
    if is_OSError e
    then
      if negb (nonzero (reconnect_time s))
      then Some ({| self := s; at_ := Failing |},
                 [EvConnect (host s) 1099 (Raise e)])
      else (* keep trying to reconnect *)
        Some (loop_top s, [EvConnect (host s) 1099 (Raise e)])
    else Some ({| self := s; at_ := Raised e |},
               [EvConnect (host s) 1099 (Raise e)])
  | Failing, Clock t =>
    Some (loop_top (set_reconnect_time s t),
          [EvTime t; EvLog WARN (lit "Could not connect to mochad. Retrying")])
  | Reading, Line (Ok line) =>
    match line with
    | [] =>
      (* an empty string means connection lost, bail out *)
      Some ({| self := s; at_ := Lost |},
            [EvReadline (Ok line);
             EvLog WARN (lit "Lost connection to mochad. Retrying.")])
    | _ :: _ =>
      match decode line with
      | Raise e => Some ({| self := s; at_ := Raised e |}, [EvReadline (Ok line)])
      | Ok text =>
        let '(addr, func) := parse_mochad_line (rstrip text) in
        (* addr/func will be blank when we have nothing to dispatch *)
        if truthy addr && truthy func
        then Some (c, [EvReadline (Ok line); EvSpawn addr func])
        else Some (c, [EvReadline (Ok line)])
      end
    end
  | Reading, Line (Raise e) =>
    Some ({| self := s; at_ := Raised e |}, [EvReadline (Raise e)])
  | Lost, Clock t =>
    Some (loop_top (set_reconnect_time s t), [EvTime t])
  | _, _ => None
  end.

(** [worker(self)] from its first line to its first suspension. *)
Definition worker (s : MochadClient) : config := loop_top s.

(** A run: the configuration reached and the trace left after the
    environment has given the answers [env]; [None] when an answer is not
    one the coroutine is waiting for (or when it has finished). *)
Fixpoint worker_run (c : config) (env : list answer)
  : option (config * trace) :=
  match env with
  | [] => Some (c, [])
  | a :: env' =>
    match worker_step c a with
    | Some (c1, evs) =>
      match worker_run c1 env' with
      | Some (c', tr) => Some (c', evs ++ tr)
      | None => None
      end
    | None => None
    end
  end.

(** ** Observations on traces *)

(** The dispatches a trace spawns, in order. *)
Definition spawned (tr : trace) : list (str * str) :=
  flat_map (fun e => match e with EvSpawn a f => [(a, f)] | _ => [] end) tr.

(** The HTTP requests a trace makes, in order. *)
Definition posts (tr : trace) : list request :=
  flat_map (fun e => match e with EvPost rq _ => [rq] | _ => [] end) tr.

(** The lines a trace logs, in order. *)
Definition logs (tr : trace) : list (level * str) :=
  flat_map (fun e => match e with EvLog l m => [(l, m)] | _ => [] end) tr.

(** The reconnect clock read off a trace, following the specification:
    it is unset (zero) at the start and after every successful connection,
    and, while unset, the next reading of the time sets it. *)
Definition clock_after (q : Q) (e : event) : Q :=
  match e with
  | EvConnect _ _ (Ok _) => 0
  | EvTime t => if nonzero q then q else t
  | _ => q
  end.

Definition episode_clock (tr : trace) : Q := fold_left clock_after tr 0.

(** Whether a sleep of one second or more is still owed: one is owed from
    a failed connection attempt to the next such sleep. *)
Definition owes (b : bool) (e : event) : bool :=
  match e with
  | EvConnect _ _ (Raise _) => true
  | EvSleep secs => if Qle_bool 1 secs then false else b
  | _ => b
  end.

Definition sleep_owed (tr : trace) : bool := fold_left owes tr false.

(** The clock of the host never reads zero, the value that the client
    keeps for an unset reconnect clock. *)
Definition clock_nonzero (a : answer) : Prop :=
  match a with Clock t => ~ t == 0 | _ => True end.

(** The clock of the host is past the epoch: [time.time()] is positive. *)
Definition clock_positive (a : answer) : Prop :=
  match a with Clock t => 0 < t | _ => True end.

(** The events that open a step: the interactions with the environment.
    Log lines and spawns follow them within the step. *)
Definition opens_step (e : event) : bool :=
  match e with
  | EvSleep _ | EvTime _ | EvConnect _ _ _ | EvReadline _ => true
  | _ => false
  end.

(** What the program point says about the clock and about the last
    events of the trace. *)
Definition worker_inv (c : config) (tr : trace) : Prop :=
  reconnect_time (self c) = episode_clock tr
  /\ match at_ c with
     | Sleeping => nonzero (reconnect_time (self c)) = true
     | Checking =>
       nonzero (reconnect_time (self c)) = true
       /\ exists p, tr = p ++ [EvSleep 1]
     | Connecting =>
       nonzero (reconnect_time (self c)) = true ->
       exists p t,
         tr = p ++ [EvSleep 1; EvTime t]
         /\ ~ 60 < double_sub t (reconnect_time (self c))
     | Failing =>
       nonzero (reconnect_time (self c)) = false
       /\ exists p m,
           tr = p ++ [EvConnect (host (self c)) 1099 (Raise (OSError m))]
     | Reading => reconnect_time (self c) = 0
     | Lost =>
       reconnect_time (self c) = 0
       /\ exists p,
           tr = p ++ [EvReadline (Ok []);
                      EvLog WARN (lit "Lost connection to mochad. Retrying.")]
     | Returned =>
       exists p, tr = p ++ [EvLog ERROR (lit "Could not reconnect after 60s")]
     | Raised _ => True
     end.

(** While a sleep is owed the coroutine is not about to connect. *)
Definition owed_inv (c : config) (tr : trace) : Prop :=
  sleep_owed tr = true ->
  match at_ c with
  | Sleeping | Failing | Raised _ => True
  | _ => False
  end.

Definition ascii_str (s : str) : Prop := Forall (fun c => (c < 128)%N) s.

(** The recognized tag and the layout of a line. *)
Definition tag : str := lit "Rx RFSEC".

Definition tag_matches (line : str) : Prop := slice 15 23 line = tag.





Definition ends_with_slash (s : str) : Prop := exists b, s = b ++ lit "/".

(** The line a failed dispatch logs, given the reason of the failure. *)
Definition failure_line (now : datetime) (addr func reason : str) : str :=
  lit "dispatch failed: " ++ reason ++ lit " epoch time " ++ isoformat now
  ++ lit " address " ++ addr ++ lit " func " ++ func.

(** ASCII lower case, for header names. *)
Definition lower (s : str) : str :=
  List.map (fun c => if ((65 <=? c) && (c <=? 90))%N then (c + 32)%N else c) s.

(** ** Further observations *)

(** The line the daemon writes for an RFSEC message, after the format
    the parser's comment gives:
    [09/22 15:39:07 Rx RFSEC Addr: 21:26:80 Func: Contact_alert_min_DS10A]. *)
Definition rfsec_line (ts addr func : str) : str :=
  ts ++ lit " Rx RFSEC Addr: " ++ addr ++ lit " Func: " ++ func.

(** The responses a trace releases, in order. *)
Definition releases (tr : trace) : list response :=
  flat_map (fun e => match e with EvRelease rsp _ => [rsp] | _ => [] end) tr.

(** The text before the first [sep] of a string and the text after it,
    as the receiver of a form body cuts it; [None] without a [sep]. *)
Fixpoint split_first (sep : char) (s : str) : option (str * str) :=
  match s with
  | [] => None
  | c :: r =>
    if (c =? sep)%N then Some ([], r)
    else match split_first sep r with
         | Some (a, b) => Some (c :: a, b)
         | None => None
         end
  end.

(** A character that is neither of the separators [;] and [&]. *)
Definition not_separator (c : char) : bool :=
  negb ((c =? 59)%N || (c =? 38)%N).

(** Every dispatch of the trace comes right after the reading of a line
    that gives it as its event. *)
Definition spawn_inv (c : config) (tr : trace) : Prop :=
  forall p a f q,
    tr = p ++ EvSpawn a f :: q ->
    exists p' b raw,
      p = p' ++ [EvReadline (Ok b)] /\ decode b = Ok raw
      /\ event_of (rstrip raw) = Some (a, f).

(** Whether the stream of the last connection is still the one to read:
    a successful connection opens it, the end of the stream, an
    exception of the read and a new attempt end it. *)
Definition opens (b : bool) (e : event) : bool :=
  match e with
  | EvConnect _ _ (Ok _) => true
  | EvConnect _ _ (Raise _) => false
  | EvReadline (Ok []) => false
  | EvReadline (Raise _) => false
  | _ => b
  end.

Definition stream_open (tr : trace) : bool := fold_left opens tr false.

(** The events that leave an open stream open. *)
Definition keeps_open (e : event) : bool :=
  match e with
  | EvConnect _ _ _ => false
  | EvReadline (Ok []) => false
  | EvReadline (Raise _) => false
  | _ => true
  end.

(** Whether the end of the stream has been seen since the last
    successful connection (true before the first one). *)
Definition ends (b : bool) (e : event) : bool :=
  match e with
  | EvConnect _ _ (Ok _) => false
  | EvReadline (Ok []) => true
  | _ => b
  end.

Definition stream_ended (tr : trace) : bool := fold_left ends tr true.

Definition stream_inv (c : config) (tr : trace) : Prop :=
  match at_ c with
  | Reading => stream_open tr = true
  | Returned | Raised _ => True
  | _ => stream_open tr = false /\ stream_ended tr = true
  end.

(** The warning of a failed attempt. *)
Definition could_not_connect : event :=
  EvLog WARN (lit "Could not connect to mochad. Retrying").

(** The warning is the third event of the run, after the first attempt
    has failed and the time has been read; an unset clock at the point
    of a new attempt means the run has not begun. *)
Definition warn_inv (c : config) (tr : trace) : Prop :=
  (at_ c = Connecting -> nonzero (reconnect_time (self c)) = false -> tr = [])
  /\ (at_ c = Failing ->
      exists h pt m, tr = [EvConnect h pt (Raise (OSError m))])
  /\ forall p q,
      tr = p ++ could_not_connect :: q ->
      exists h pt m t, p = [EvConnect h pt (Raise (OSError m)); EvTime t].

(** How a finished worker got there. *)
Definition end_inv (c : config) (tr : trace) : Prop :=
  match at_ c with
  | Returned =>
    exists p t,
      tr = p ++ [EvSleep 1; EvTime t;
                 EvLog ERROR (lit "Could not reconnect after 60s")]
      /\ 60 < t - episode_clock p
  | Raised e =>
    (exists p h pt, tr = p ++ [EvConnect h pt (Raise e)]
                    /\ is_OSError e = false)
    \/ (exists p, tr = p ++ [EvReadline (Raise e)])
    \/ (exists p b, tr = p ++ [EvReadline (Ok b)]
                    /\ b <> [] /\ decode b = Raise e)
  | _ => True
  end.

(** The failed connection attempts since the last successful one. *)
Definition fails_after (n : nat) (e : event) : nat :=
  match e with
  | EvConnect _ _ (Ok _) => O
  | EvConnect _ _ (Raise _) => S n
  | _ => n
  end.

Definition episode_fails (tr : trace) : nat := fold_left fails_after tr O.

(** A clock that is past the epoch, never goes back, and has advanced
    by a second or more when it is read after a sleep of one second:
    [last] is the reading before, [slept] whether a sleep has ended
    since. *)
Definition tick_ok (last : Q) (slept : bool) (a : answer) : Prop :=
  match a with
  | Clock t => 0 < t /\ (if slept then last + 1 <= t else last <= t)
  | _ => True
  end.

Definition tick (last : Q) (slept : bool) (a : answer) : Q * bool :=
  match a with
  | Slept => (last, true)
  | Clock t => (t, false)
  | _ => (last, slept)
  end.

Fixpoint ticking (last : Q) (slept : bool) (env : list answer) : Prop :=
  match env with
  | [] => True
  | a :: env' =>
    tick_ok last slept a
    /\ ticking (fst (tick last slept a)) (snd (tick last slept a)) env'
  end.

(** The failed attempts of the episode against the time it has lasted. *)
Definition retry_inv (c : config) (tr : trace) (last : Q) (slept : bool)
  : Prop :=
  let n := inject_Z (Z.of_nat (episode_fails tr)) in
  let rt := reconnect_time (self c) in
  (episode_fails tr <= 61)%nat
  /\ match at_ c with
     | Sleeping => nonzero rt = true /\ rt + n <= last + 1
     | Checking => nonzero rt = true /\ rt + n <= last + 1 /\ slept = true
     | Connecting =>
       if nonzero rt then rt + n <= last /\ last - rt < 61
       else episode_fails tr = O
     | Failing => nonzero rt = false /\ episode_fails tr = 1%nat
     | Reading | Lost => episode_fails tr = O
     | Returned | Raised _ => True
     end.

(** ** The stand-alone read loop *)

(** [read_messages(self)], the coroutine with the read loop alone, as a
    transition system on the answers of [readline]. *)
Inductive rm_pc :=
| RmReading               (* l.50: in self.reader.readline() *)
| RmReturned              (* the coroutine returned (break at l.53) *)
| RmRaised (e : pyexn).   (* the coroutine raised e *)

Definition read_messages_step (st : rm_pc) (r : result bytes)
  : option (rm_pc * trace) :=
  match st, r with
  | RmReading, Ok line =>
    match line with
    | [] =>
      (* an empty string means connection lost, bail out *)
      Some (RmReturned, [EvReadline (Ok line)])
    | _ :: _ =>
      match decode line with
      | Raise e => Some (RmRaised e, [EvReadline (Ok line)])
      | Ok text =>
        let '(addr, func) := parse_mochad_line (rstrip text) in
        (* addr/func will be blank when we dont have an incoming RFSEC msg *)
        if truthy addr && truthy func
        then Some (RmReading, [EvReadline (Ok line); EvSpawn addr func])
        else Some (RmReading, [EvReadline (Ok line)])
      end
    end
  | RmReading, Raise e => Some (RmRaised e, [EvReadline (Raise e)])
  | _, _ => None
  end.

Fixpoint read_messages (st : rm_pc) (rs : list (result bytes))
  : option (rm_pc * trace) :=
  match rs with
  | [] => Some (st, [])
  | r :: rs' =>
    match read_messages_step st r with
    | Some (st1, evs) =>
      match read_messages st1 rs' with
      | Some (st', tr) => Some (st', evs ++ tr)
      | None => None
      end
    | None => None
    end
  end.

(** ** The program *)

(** How the program ends its start-up: it exits with a status and a
    text on the standard error, or it starts the daemon, in the
    foreground or not, with the action [daemon_main]; the action builds
    the client and enters the worker, or raises. *)
Inductive outcome :=
| Exit (code : Z) (stderr : str)
| Daemon (foreground : bool) (action : result config).

(** [errordie(message)]; [prog] is [os.path.basename(sys.argv[0])]. *)
Definition errordie (prog message : str) : outcome :=
  Exit 1 (prog ++ lit ": error: " ++ message ++ [10%N]).

(** [daemon_main()], up to the first suspension of the worker. *)
Definition daemon_main (server entry_point0 : str) : result config :=
  match __init__ server entry_point0 with
  | Ok mochad_client => Ok (worker mochad_client)
  | Raise e => Raise e
  end.

Section Main.

(** [urllib.parse.urlparse(url).scheme]. *)
Variable urlparse_scheme : str -> str.

(** The body of [if __name__ == "__main__":] after the parsing of the
    command line, which gives [server], [foreground] and [entry_point0]. *)
Definition main (prog server : str) (foreground : bool) (entry_point0 : str)
  : outcome :=
  let scheme := urlparse_scheme entry_point0 in
  (* bail out if the url scheme is anything but HTTP(S) *)
  if negb (str_eqb scheme (lit "https")) && negb (str_eqb scheme (lit "http"))
  then errordie prog (lit "unsupported URL scheme '" ++ scheme ++ lit "'")
  else Daemon foreground (daemon_main server entry_point0).

End Main.

(** Whether a sleep of one second or more is still owed after the end
    of a stream. *)
Definition owes_after_loss (b : bool) (e : event) : bool :=
  match e with
  | EvReadline (Ok []) => true
  | EvSleep secs => if Qle_bool 1 secs then false else b
  | _ => b
  end.

Definition loss_owed (tr : trace) : bool := fold_left owes_after_loss tr false.

Definition loss_inv (c : config) (tr : trace) : Prop :=
  loss_owed tr = true ->
  match at_ c with
  | Lost | Sleeping | Raised _ => True
  | _ => False
  end.

(** ** Sample data *)

Definition sample_client : MochadClient :=
  {| host := lit "127.0.0.1"; reconnect_time := 0; reader := None;
     writer := None; entry_point := lit "http://example.com/api/" |}.

Definition sample_now : datetime :=
  {| year := 2015; month := 9; day := 22;
     hour := 15; minute := 39; second := 7; microsecond := 123 |}.

Definition sample_line : str :=
  lit "09/22 15:39:07 Rx RFSEC Addr: 21:26:80 Func: Contact_alert_min_DS10A".

(** An HTTP peer that answers every request with the given status. *)
Definition answers_with (code : Z) (rq : request) : result response :=
  Ok {| status := code |}.

Definition release_ok (rsp : response) : result unit := Ok tt.

(** A response whose release fails: the connection drops while the rest
    of the body is read. *)
Definition release_reset (rsp : response) : result unit :=
  Raise (OSError (lit "Connection reset by peer")).

(** Answers of the environment: the daemon is down from second 100 on
    and the retries run out of their minute. *)
Definition sample_outage : list answer :=
  [Connected (Raise (OSError (lit "Connection refused"))); Clock 100;
   Slept; Clock 101;
   Connected (Raise (OSError (lit "Connection refused")));
   Slept; Clock (3215 # 20)].

(** Answers of the environment: the daemon is reached at once, sends two
    lines and closes; the second attempt to reconnect succeeds. *)
Definition sample_session : list answer :=
  [Connected (Ok 1%nat);
   Line (Ok (blit "09/22 15:39:07 Rx RFSEC Addr: 21:26:80 Func: Contact_alert_min_DS10A"
             ++ [x0a]));
   Line (Ok (blit "09/22 15:39:09 Tx PL HouseUnit: A1" ++ [x0a]));
   Line (Ok []); Clock 200;
   Slept; Clock 201;
   Connected (Raise (OSError (lit "Connection refused")));
   Slept; Clock 202;
   Connected (Ok 2%nat)].

(** Three lines of the daemon, the second of another message class. *)
Definition sample_lines : list bytes :=
  [blit "09/22 15:39:07 Rx RFSEC Addr: 21:26:80 Func: Contact_alert_min_DS10A"
   ++ [x0a];
   blit "09/22 15:39:09 Tx PL HouseUnit: A1" ++ [x0a];
   blit "09/22 15:40:11 Rx RFSEC Addr: 21:26:80 Func: Contact_normal_min_DS10A"
   ++ [x0d; x0a]].


(** Answers of the environment: the first attempt fails, the second
    succeeds, the stream closes, and the next attempt fails too. *)
Definition sample_flap : list answer :=
  [Connected (Raise (OSError (lit "Connection refused"))); Clock 100;
   Slept; Clock 101;
   Connected (Ok 1%nat);
   Line (Ok []); Clock 150;
   Slept; Clock 151;
   Connected (Raise (OSError (lit "Connection refused")));
   Slept; Clock 152].

(** A stand-in for [urlparse(url).scheme] on URLs written [scheme:rest]:
    the text before the first colon. *)
Definition sample_scheme (u : str) : str :=
  match split_first 58%N u with
  | Some (a, _) => a
  | None => []
  end.

(** * Theorems *)

Unset Implicit Arguments.

(** ** Python floats *)

Lemma rne_le y k : y <= inject_Z k -> (rne y <= k)%Z.
Proof.
  intros H.
  assert (Hf : (Qfloor y <= k)%Z).
  { rewrite <- (Qfloor_Z k). apply Qfloor_resp_le. exact H. }
  pose proof (Qfloor_le y) as Hfl.
  assert (Hup : 1 # 2 <= y - inject_Z (Qfloor y) -> (Qfloor y + 1 <= k)%Z).
  { intros Hh.
    assert (Hlt : inject_Z (Qfloor y) < inject_Z k) by lra.
    rewrite <- Zlt_Qlt in Hlt. lia. }
  unfold rne.
  destruct (Qcompare (y - inject_Z (Qfloor y)) (1 # 2)) eqn:E.
  - apply Qeq_alt in E. destruct (Z.even (Qfloor y)); [exact Hf|].
    apply Hup. lra.
  - exact Hf.
  - apply Qgt_alt in E. apply Hup. lra.
Qed.

Lemma rne_ge y k : inject_Z k <= y -> (k <= rne y)%Z.
Proof.
  intros H.
  assert (Hf : (k <= Qfloor y)%Z).
  { rewrite <- (Qfloor_Z k). apply Qfloor_resp_le. exact H. }
  unfold rne.
  destruct (Qcompare (y - inject_Z (Qfloor y)) (1 # 2));
    [destruct (Z.even (Qfloor y))| |]; lia.
Qed.

Lemma pow2_pos z : 0 < 2 ^ z.
Proof. apply Qpower_0_lt. reflexivity. Qed.

Lemma pow2_nat z : (0 <= z)%Z -> 2 ^ z == inject_Z (2 ^ z).
Proof. intros H. rewrite Zpower_Qpower by exact H. reflexivity. Qed.

Lemma binade_le x : 0 < x -> 2 ^ binade x <= x.
Proof.
  intros Hx. unfold binade.
  set (a := Z.log2 (Qnum x)). set (b := Z.log2 (Z.pos (Qden x))).
  destruct (Qle_bool (2 ^ (a - b)) x) eqn:E; [apply Qle_bool_iff; exact E|].
  clear E.
  assert (Hn : (0 < Qnum x)%Z).
  { unfold Qlt in Hx. simpl in Hx. lia. }
  destruct (Z.log2_spec (Qnum x) Hn) as [Ha _].
  destruct (Z.log2_spec (Z.pos (Qden x)) (Pos2Z.is_pos _)) as [_ Hb].
  fold a in Ha. fold b in Hb.
  assert (Ha0 : (0 <= a)%Z) by apply Z.log2_nonneg.
  assert (Hb0 : (0 <= b)%Z) by apply Z.log2_nonneg.
  replace (a - b - 1)%Z with (a - Z.succ b)%Z by lia.
  rewrite Qpower_minus by discriminate.
  rewrite (pow2_nat a Ha0), (pow2_nat (Z.succ b)) by lia.
  assert (HB : 0 < inject_Z (2 ^ Z.succ b)).
  { rewrite <- pow2_nat by lia. apply pow2_pos. }
  apply Qle_shift_div_r; [exact HB|].
  destruct x as [n d]. simpl in *.
  unfold Qle, Qmult, inject_Z. simpl.
  nia.
Qed.

Lemma pow2_inv z : 2 ^ (- z) * 2 ^ z == 1.
Proof.
  rewrite <- Qpower_plus by discriminate.
  replace (- z + z)%Z with 0%Z by lia. reflexivity.
Qed.

(** A multiple [k * 2^s] of the spacing, [s <= 0], bounds the rounded
    value as it bounds the value. *)
Lemma round_scaled_le x s k :
  (s <= 0)%Z -> x <= inject_Z k ->
  inject_Z (rne (x * 2 ^ (- s))) * 2 ^ s <= inject_Z k.
Proof.
  intros Hs Hx.
  pose proof (pow2_pos s) as HP. pose proof (pow2_pos (- s)) as HN.
  pose proof (pow2_inv s) as HI.
  assert (HK : x * 2 ^ (- s) <= inject_Z (k * 2 ^ (- s))).
  { rewrite inject_Z_mult, <- pow2_nat by lia.
    apply Qmult_le_compat_r; [exact Hx | apply Qlt_le_weak; exact HN]. }
  apply rne_le in HK. rewrite Zle_Qle in HK.
  rewrite inject_Z_mult, <- pow2_nat in HK by lia.
  apply (Qmult_le_compat_r _ _ (2 ^ s)) in HK; [|apply Qlt_le_weak; exact HP].
  rewrite <- Qmult_assoc, HI, Qmult_1_r in HK. exact HK.
Qed.

Lemma round_scaled_ge x s k :
  (s <= 0)%Z -> inject_Z k <= x ->
  inject_Z k <= inject_Z (rne (x * 2 ^ (- s))) * 2 ^ s.
Proof.
  intros Hs Hx.
  pose proof (pow2_pos s) as HP. pose proof (pow2_pos (- s)) as HN.
  pose proof (pow2_inv s) as HI.
  assert (HK : inject_Z (k * 2 ^ (- s)) <= x * 2 ^ (- s)).
  { rewrite inject_Z_mult, <- pow2_nat by lia.
    apply Qmult_le_compat_r; [exact Hx | apply Qlt_le_weak; exact HN]. }
  apply rne_ge in HK. rewrite Zle_Qle in HK.
  rewrite inject_Z_mult, <- pow2_nat in HK by lia.
  apply (Qmult_le_compat_r _ _ (2 ^ s)) in HK; [|apply Qlt_le_weak; exact HP].
  rewrite <- Qmult_assoc, HI, Qmult_1_r in HK. exact HK.
Qed.

Lemma round_pos_nonneg x : 0 < x -> 0 <= round_pos x.
Proof.
  intros Hx. unfold round_pos.
  apply Qmult_le_0_compat; [|apply Qlt_le_weak; apply pow2_pos].
  change 0 with (inject_Z 0). rewrite <- Zle_Qle. apply rne_ge.
  apply Qmult_le_0_compat; apply Qlt_le_weak; [exact Hx | apply pow2_pos].
Qed.

Lemma round_pos_le_60 x : 0 < x -> x <= 60 -> round_pos x <= 60.
Proof.
  intros Hx H60. unfold round_pos.
  pose proof (binade_le x Hx) as He.
  assert (Hs : (binade x < 6)%Z).
  { destruct (Z.lt_ge_cases (binade x) 6) as [H|H]; [exact H|].
    pose proof (Qpower_le_compat_l 2 6 (binade x) H) as Hp.
    assert (H1 : 1 <= 2) by (intros H1; discriminate H1).
    specialize (Hp H1). change (2 ^ 6) with 64 in Hp. lra. }
  apply (round_scaled_le x (binade x - 52) 60); [lia | exact H60].
Qed.

Lemma round_pos_ge_61 x : 61 <= x -> 61 <= round_pos x.
Proof.
  intros H61. unfold round_pos.
  assert (Hx : 0 < x) by lra.
  pose proof (binade_le x Hx) as He.
  destruct (Z.le_gt_cases (binade x - 52) 0) as [Hs|Hs].
  - apply (round_scaled_ge x (binade x - 52) 61); [exact Hs | exact H61].
  - (* beyond 2^53 every double is an integer multiple of a power of two *)
    set (s := (binade x - 52)%Z) in *.
    pose proof (pow2_pos s) as HP. pose proof (pow2_pos (- s)) as HN.
    assert (H52 : inject_Z (2 ^ 52) <= x * 2 ^ (- s)).
    { rewrite <- pow2_nat by lia.
      replace 52%Z with (binade x + - s)%Z by (unfold s; lia).
      rewrite Qpower_plus by discriminate.
      apply Qmult_le_compat_r; [exact He | apply Qlt_le_weak; exact HN]. }
    apply rne_ge in H52. rewrite Zle_Qle in H52.
    assert (H1 : 1 <= 2 ^ s).
    { apply Qpower_1_le; [intros H1; discriminate H1 | lia]. }
    assert (Hbig : 61 <= inject_Z (2 ^ 52)) by (intros Hc; discriminate Hc).
    assert (Hm : 61 <= inject_Z (rne (x * 2 ^ (- s)))) by lra.
    apply Qle_trans with (inject_Z (rne (x * 2 ^ (- s))) * 1); [lra|].
    apply Qmult_le_l; [lra | exact H1].
Qed.

Lemma double_round_le_60 x : x <= 60 -> double_round x <= 60.
Proof.
  intros H. unfold double_round.
  destruct x as [n d]. cbn [Qnum]. destruct n as [|p|p].
  - intros Hc. discriminate Hc.
  - apply round_pos_le_60; [reflexivity | exact H].
  - assert (Hp : 0 <= round_pos (- (Z.neg p # d))).
    { apply round_pos_nonneg. reflexivity. }
    lra.
Qed.

Lemma double_round_ge_61 x : 61 <= x -> 61 <= double_round x.
Proof.
  intros H. unfold double_round.
  destruct x as [n d]. cbn [Qnum]. destruct n as [|p|p].
  - exfalso. revert H. unfold Qle. simpl. lia.
  - apply round_pos_ge_61. exact H.
  - exfalso. revert H. unfold Qle. simpl. lia.
Qed.

(** More than 60 computed means more than 60 elapsed; 61 or more elapsed
    means more than 60 computed. *)
Lemma double_sub_gt_60 a b : 60 < double_sub a b -> 60 < a - b.
Proof.
  intros H. apply Qnot_le_lt. intros Hle.
  apply double_round_le_60 in Hle. unfold double_sub in H. lra.
Qed.

Lemma double_sub_ge_61 a b : 61 <= a - b -> 60 < double_sub a b.
Proof.
  intros H. apply double_round_ge_61 in H. unfold double_sub. lra.
Qed.

(** The doubles nearest to 60.1 and to 0.1 are more than 60 apart, and
    their difference as doubles is 60; a quarter of a second is kept. *)
Example double_sub_samples :
  60 < (8458323050155213 # 140737488355328)
       - (3602879701896397 # 36028797018963968)
  /\ double_sub (8458323050155213 # 140737488355328)
                (3602879701896397 # 36028797018963968) == 60
  /\ double_sub (3215 # 20) 100 == 243 # 4.
Proof. split; [reflexivity|]. split; vm_compute; reflexivity. Qed.

(** ** The line parser *)

Lemma str_eqb_eq a b : str_eqb a b = true <-> a = b.
Proof.
  unfold str_eqb. destruct (list_eq_dec N.eq_dec a b); split; congruence.
Qed.

Lemma str_eqb_neq a b : str_eqb a b = false <-> a <> b.
Proof.
  unfold str_eqb. destruct (list_eq_dec N.eq_dec a b); split; congruence.
Qed.

Lemma truthy_true s : truthy s = true <-> s <> [].
Proof. destruct s; simpl; split; congruence. Qed.

Lemma truthy_length s : truthy s = (0 <? List.length s)%nat.
Proof. destruct s; reflexivity. Qed.

Lemma parse_match line :
  tag_matches line ->
  parse_mochad_line line = (slice 30 38 line, slice_from 45 line).
Proof.
  intros H. unfold parse_mochad_line.
  replace (str_eqb (slice 15 23 line) (lit "Rx RFSEC")) with true; [reflexivity|].
  symmetry. apply str_eqb_eq. exact H.
Qed.

Lemma parse_mismatch line :
  ~ tag_matches line -> parse_mochad_line line = ([], []).
Proof.
  intros H. unfold parse_mochad_line.
  replace (str_eqb (slice 15 23 line) (lit "Rx RFSEC")) with false; [reflexivity|].
  symmetry. apply str_eqb_neq. exact H.
Qed.

Lemma tag_matches_length line : tag_matches line -> (23 <= List.length line)%nat.
Proof.
  unfold tag_matches, slice. intros H.
  apply (f_equal (@List.length _)) in H.
  rewrite length_firstn, length_skipn in H.
  change (List.length tag) with 8%nat in H. lia.
Qed.

Lemma event_of_well_formed line :
  tag_matches line -> (45 < List.length line)%nat ->
  event_of line = Some (slice 30 38 line, slice_from 45 line).
Proof.
  intros Ht Hl. unfold event_of. rewrite (parse_match line Ht).
  rewrite !truthy_length. unfold slice, slice_from.
  rewrite length_firstn, !length_skipn.
  replace (0 <? Nat.min (38 - 30) (List.length line - 30))%nat with true
    by (symmetry; apply Nat.ltb_lt; lia).
  replace (0 <? List.length line - 45)%nat with true
    by (symmetry; apply Nat.ltb_lt; lia).
  reflexivity.
Qed.

Lemma event_of_short line :
  (List.length line < 46)%nat -> event_of line = None.
Proof.
  intros Hl. unfold event_of, parse_mochad_line.
  destruct (negb _); [reflexivity|].
  replace (slice_from 45 line) with (@nil char).
  - rewrite andb_false_r. reflexivity.
  - symmetry. apply skipn_all2. lia.
Qed.

Lemma event_of_mismatch line : ~ tag_matches line -> event_of line = None.
Proof. intros H. unfold event_of. rewrite (parse_mismatch line H). reflexivity. Qed.

(** What one step of the read loop does with a line of the stream. *)
Lemma read_step (c : config) (b : bytes) (text : str) :
  at_ c = Reading -> b <> [] -> decode b = Ok text ->
  worker_step c (Line (Ok b)) =
  Some (c, EvReadline (Ok b) ::
           match event_of (rstrip text) with
           | Some (addr, func) => [EvSpawn addr func]
           | None => []
           end).
Proof.
  intros Hpc Hb Hd. unfold worker_step. rewrite Hpc.
  destruct b as [|b0 b]; [congruence|]. rewrite Hd.
  unfold event_of. destruct (parse_mochad_line (rstrip text)) as [addr func].
  destruct (truthy addr && truthy func); reflexivity.
Qed.

(** C5.  A line that carries the tag at offsets 15..22 and is long enough
    for all fields parses to an event: its address is the eight
    characters at offsets 30..37 and its function the characters from
    offset 45 to the end.  The first fifteen characters (the timestamp)
    play no part: replacing them changes nothing.  The line of the
    source's comment parses to [21:26:80] and [Contact_alert_min_DS10A]. *)
Theorem parse_mochad_line_well_formed :
  (forall line,
      tag_matches line -> (45 < List.length line)%nat ->
      exists addr func,
        parse_mochad_line line = (addr, func)
        /\ event_of line = Some (addr, func)
        /\ List.length addr = 8%nat
        /\ (forall i, (i < 8)%nat -> nth_error addr i = nth_error line (30 + i))
        /\ List.length func = (List.length line - 45)%nat
        /\ (forall i, nth_error func i = nth_error line (45 + i)))
  /\ (forall ts ts' rest,
         List.length ts = 15%nat -> List.length ts' = 15%nat ->
         parse_mochad_line (ts ++ rest) = parse_mochad_line (ts' ++ rest))
  /\ parse_mochad_line
       (lit "09/22 15:39:07 Rx RFSEC Addr: 21:26:80 Func: Contact_alert_min_DS10A")
     = (lit "21:26:80", lit "Contact_alert_min_DS10A").
Proof.
  split; [|split].
  - intros line Ht Hl.
    exists (slice 30 38 line), (slice_from 45 line).
    split; [apply parse_match; exact Ht|].
    split; [apply event_of_well_formed; assumption|].
    unfold slice, slice_from.
    split; [rewrite length_firstn, length_skipn; lia|].
    split.
    + intros i Hi. rewrite nth_error_firstn, nth_error_skipn.
      replace (i <? 38 - 30)%nat with true; [reflexivity|].
      symmetry. apply Nat.ltb_lt. lia.
    + split; [apply length_skipn|].
      intros i. apply nth_error_skipn.
  - intros ts ts' rest H1 H2.
    assert (E : forall t n, List.length t = 15%nat -> (15 <= n)%nat ->
                skipn n (t ++ rest) = skipn (n - 15) rest).
    { intros t n Ht Hn. rewrite skipn_app, Ht.
      rewrite (skipn_all2 t) by lia. reflexivity. }
    unfold parse_mochad_line, slice, slice_from.
    rewrite !(E ts), !(E ts') by (assumption || lia). reflexivity.
  - reflexivity.
Qed.

Lemma parse_mochad_line_well_formed_witness :
  event_of
    (lit "09/22 15:39:07 Rx RFSEC Addr: 21:26:80 Func: Contact_alert_min_DS10A")
  = Some (lit "21:26:80", lit "Contact_alert_min_DS10A").
Proof.
  destruct (proj1 parse_mochad_line_well_formed
              (lit "09/22 15:39:07 Rx RFSEC Addr: 21:26:80 Func: Contact_alert_min_DS10A"))
    as (addr & func & Hp & He & _).
  - reflexivity.
  - vm_compute. lia.
  - rewrite He. rewrite <- Hp. reflexivity.
Defined.

(** C6.  A line that does not carry the tag at offsets 15..22 parses to
    the blank pair, is no event, and the read loop spawns no dispatch for
    it. *)
Theorem parse_mochad_line_tag_mismatch line :
  ~ tag_matches line ->
  parse_mochad_line line = ([], [])
  /\ event_of line = None
  /\ forall (c : config) (b : bytes) (text : str),
       at_ c = Reading -> b <> [] -> decode b = Ok text ->
       rstrip text = line ->
       exists tr, worker_step c (Line (Ok b)) = Some (c, tr)
                  /\ spawned tr = [].
Proof.
  intros H. split; [apply parse_mismatch; exact H|].
  split; [apply event_of_mismatch; exact H|].
  intros c b text Hpc Hb Hd Hs.
  rewrite (read_step c b text Hpc Hb Hd), Hs, (event_of_mismatch line H).
  eexists. split; reflexivity.
Qed.

Lemma parse_mochad_line_tag_mismatch_witness :
  parse_mochad_line (lit "09/22 15:39:07 Rx RF HouseUnit: A1 Func: On") = ([], []).
Proof.
  apply (parse_mochad_line_tag_mismatch
           (lit "09/22 15:39:07 Rx RF HouseUnit: A1 Func: On")).
  intros H. vm_compute in H. discriminate H.
Defined.

(** C7 (amended).  The parser has a result for every string, and the
    result is read off the line character by character: in a line with
    the tag, the address is made of the characters at offsets 30 to 37
    that the line has and the function of those from offset 45 on, and
    nothing stands for the offsets the line does not reach; without the
    tag both are blank.  So a line shorter than 46 characters has a blank
    function, is no event, and the read loop spawns no dispatch for it.
    Below 31 characters the whole pair is blank.  A line with the tag
    and 31 to 45 characters does not give the blank pair: its address is
    what the line has at offsets 30 to 37 and is not blank; only the test
    of the read loop drops it. *)
Theorem parse_mochad_line_short line :
  (forall i,
      nth_error (fst (parse_mochad_line line)) i
      = (if str_eqb (slice 15 23 line) tag && (i <? 8)%nat
         then nth_error line (30 + i) else None)
      /\ nth_error (snd (parse_mochad_line line)) i
         = (if str_eqb (slice 15 23 line) tag
            then nth_error line (45 + i) else None))
  /\ ((List.length line < 46)%nat ->
      snd (parse_mochad_line line) = []
      /\ event_of line = None
      /\ forall (c : config) (b : bytes) (text : str),
           at_ c = Reading -> b <> [] -> decode b = Ok text ->
           rstrip text = line ->
           exists tr, worker_step c (Line (Ok b)) = Some (c, tr)
                      /\ spawned tr = [])
  /\ ((List.length line < 31)%nat -> parse_mochad_line line = ([], []))
  /\ (tag_matches line -> (30 < List.length line < 46)%nat ->
      parse_mochad_line line = (slice 30 38 line, [])
      /\ slice 30 38 line <> []).
Proof.
  split; [|split; [|split]].
  - intros i. unfold parse_mochad_line. fold tag.
    destruct (str_eqb (slice 15 23 line) tag); cbn [negb fst snd andb].
    + unfold slice, slice_from.
      rewrite nth_error_firstn, !nth_error_skipn.
      change (38 - 30)%nat with 8%nat. split; reflexivity.
    + rewrite nth_error_nil. split; reflexivity.
  - intros Hl. split; [|split].
    + unfold parse_mochad_line. destruct (negb _); [reflexivity|].
      cbn [snd]. unfold slice_from. apply skipn_all2. lia.
    + apply event_of_short. exact Hl.
    + intros c b text Hpc Hb Hd Hs.
      rewrite (read_step c b text Hpc Hb Hd), Hs, (event_of_short _ Hl).
      eexists. split; reflexivity.
  - intros Hl. unfold parse_mochad_line. destruct (negb _); [reflexivity|].
    unfold slice, slice_from. rewrite !skipn_all2 by lia. reflexivity.
  - intros Ht [Hlo Hhi]. rewrite (parse_match line Ht).
    unfold slice, slice_from. split.
    + rewrite (skipn_all2 line (n := 45)) by lia. reflexivity.
    + intros E. apply (f_equal (@List.length char)) in E.
      rewrite length_firstn, length_skipn in E.
      cbn [List.length] in E. lia.
Qed.

Lemma parse_mochad_line_short_witness :
  event_of (lit "09/22 15:39:07 Rx RFSEC Addr: 21:26:80") = None
  /\ parse_mochad_line (lit "09/22 15:39:07 Rx RFSEC") = ([], [])
  /\ parse_mochad_line (lit "09/22 15:39:07 Rx RFSEC Addr: 21:26")
     = (lit "21:26", []).
Proof.
  split; [|split].
  - apply (proj1 (proj2 (parse_mochad_line_short
                          (lit "09/22 15:39:07 Rx RFSEC Addr: 21:26:80")))).
    vm_compute. lia.
  - apply (proj1 (proj2 (proj2 (parse_mochad_line_short
                          (lit "09/22 15:39:07 Rx RFSEC"))))).
    vm_compute. lia.
  - apply (proj2 (proj2 (proj2 (parse_mochad_line_short
                          (lit "09/22 15:39:07 Rx RFSEC Addr: 21:26"))))).
    + reflexivity.
    + vm_compute. lia.
Defined.

(** C7, the claim as it was written, fails on a line that has the tag
    and an address but no function: it is shorter than 46 characters,
    too short for the three fields, and the parser returns the address
    with a blank function, not the blank pair. *)
Lemma parse_mochad_line_short_counterexample :
  (List.length (lit "09/22 15:39:07 Rx RFSEC Addr: 21:26:80") < 46)%nat
  /\ parse_mochad_line (lit "09/22 15:39:07 Rx RFSEC Addr: 21:26:80")
     = (lit "21:26:80", [])
  /\ parse_mochad_line (lit "09/22 15:39:07 Rx RFSEC Addr: 21:26:80")
     <> ([], []).
Proof.
  split; [vm_compute; lia|].
  split; [reflexivity|].
  intros H. vm_compute in H. discriminate H.
Qed.

(** ** The dispatcher *)

Lemma utf8_encode_ascii s : ascii_str s -> utf8_encode s = Some s.
Proof.
  induction 1 as [|c r Hc _ IH]; [reflexivity|].
  simpl. rewrite IH. unfold utf8_encode_char.
  replace (c <? 128)%N with true; [reflexivity|].
  symmetry. apply N.ltb_lt. exact Hc.
Qed.

Lemma digits_ascii w : forall n, ascii_str (digits w n).
Proof.
  induction w as [|w IH]; intros n; simpl; [constructor|].
  apply Forall_app. split; [apply IH|].
  constructor; [|constructor].
  unfold digit_char.
  assert (n mod 10 < 10)%N by (apply N.mod_lt; discriminate).
  destruct (n mod 10 <? 10)%N; lia.
Qed.

Lemma lit_ascii_check s :
  forallb (fun c => (c <? 128)%N) s = true -> ascii_str s.
Proof.
  intros H. apply Forall_forall. intros c Hc.
  rewrite forallb_forall in H. apply N.ltb_lt. apply H. exact Hc.
Qed.

Lemma ascii_app a b : ascii_str a -> ascii_str b -> ascii_str (a ++ b).
Proof. intros Ha Hb. apply Forall_app. split; assumption. Qed.

Lemma isoformat_ascii d : ascii_str (isoformat d).
Proof.
  unfold isoformat.
  destruct (microsecond d =? 0)%N;
    repeat first [ apply digits_ascii
                 | apply lit_ascii_check; reflexivity
                 | apply ascii_app ].
Qed.

Lemma quote_isoformat d :
  quote (isoformat d) = Ok (flat_map quote_byte (isoformat d)).
Proof.
  unfold quote. rewrite (utf8_encode_ascii _ (isoformat_ascii d)). reflexivity.
Qed.

Lemma nonblank_prefix (p s : str) :
  p <> [] -> negb (str_eqb (p ++ s) (lit "")) = true.
Proof.
  intros Hp. destruct (str_eqb (p ++ s) (lit "")) eqn:E; [|reflexivity].
  apply str_eqb_eq in E. destruct p; [congruence|discriminate E].
Qed.

(** The whole behaviour of one dispatch, by cases on what the HTTP peer
    answers. *)
Lemma dispatch_message_cases now post release addr func s :
  let rq := {| meth := lit "POST";
               url := entry_point s ++ addr;
               data := lit "dispatch_time="
                       ++ flat_map quote_byte (isoformat now)
                       ++ lit ";func=" ++ func;
               headers := [(lit "content-type",
                            lit "application/x-www-form-urlencoded")] |} in
  let fail reason := [EvLog INFO (failure_line now addr func reason)] in
  dispatch_message now post release addr func s =
  (Ok tt, s,
   EvPost rq (post rq) ::
   match post rq with
   | Raise e => fail (lit "Caught exception: " ++ exn_str e)
   | Ok rsp =>
     EvRelease rsp (release rsp) ::
     match release rsp with
     | Raise e => fail (lit "Caught exception: " ++ exn_str e)
     | Ok _ =>
       if (status rsp =? 200)%Z then []
       else fail (lit "HTTP status " ++ str_of_Z (status rsp))
     end
   end).
Proof.
  intros rq fail.
  unfold dispatch_message, bind, lift, try_except, get_self, do_post,
    do_release, ret, emit.
  rewrite quote_isoformat. cbv beta iota zeta. fold rq.
  destruct (post rq) as [rsp|e].
  - destruct (release rsp) as [[]|e].
    + destruct (status rsp =? 200)%Z; cbn [negb]; cbv beta iota zeta.
      * reflexivity.
      * rewrite nonblank_prefix by discriminate. reflexivity.
    + rewrite nonblank_prefix by discriminate. reflexivity.
  - rewrite nonblank_prefix by discriminate. reflexivity.
Qed.

(** Two answers of the environment to one question are the same answer. *)
Ltac same_answer :=
  repeat match goal with
         | H : Ok _ = Ok _ |- _ => injection H as H; subst
         | H : Raise _ = Raise _ |- _ => injection H as H; subst
         | H : Ok _ = Raise _ |- _ => discriminate H
         | H : Raise _ = Ok _ |- _ => discriminate H
         | H1 : ?x = Ok _, H2 : ?x = _ |- _ => rewrite H1 in H2
         | H1 : ?x = Raise _, H2 : ?x = _ |- _ => rewrite H1 in H2
         end.

(** C8 (amended).  A dispatch never raises: it returns, and it leaves
    the client object as it found it.  It makes exactly one HTTP
    request, whatever the answer (no retry).  When the answer has status
    200, nothing is logged exactly when it is released without an
    exception.  When the request raises, or the status is not 200, or
    the release raises (also the release of an answer with status 200),
    exactly one line is logged, and it carries a reason that is not
    blank: the status for a non-200 answer released normally, the
    exception otherwise. *)
Theorem dispatch_message_outcome now post release addr func s :
  exists rq tr,
    dispatch_message now post release addr func s = (Ok tt, s, tr)
    /\ posts tr = [rq]
    /\ (forall rsp,
          post rq = Ok rsp -> status rsp = 200%Z -> release rsp = Ok tt ->
          logs tr = [])
    /\ (forall rsp,
          post rq = Ok rsp -> status rsp = 200%Z ->
          (logs tr = [] <-> release rsp = Ok tt))
    /\ ((exists e, post rq = Raise e)
        \/ (exists rsp, post rq = Ok rsp
                        /\ (status rsp <> 200%Z \/ exists e, release rsp = Raise e)) ->
        exists reason,
          reason <> []
          /\ logs tr = [(INFO, failure_line now addr func reason)])
    /\ (forall rsp,
          post rq = Ok rsp -> status rsp <> 200%Z -> release rsp = Ok tt ->
          logs tr = [(INFO, failure_line now addr func
                              (lit "HTTP status " ++ str_of_Z (status rsp)))])
    /\ (forall e,
          post rq = Raise e \/ (exists rsp, post rq = Ok rsp /\ release rsp = Raise e) ->
          logs tr = [(INFO, failure_line now addr func
                              (lit "Caught exception: " ++ exn_str e))]).
Proof.
  pose proof (dispatch_message_cases now post release addr func s) as H.
  cbv zeta in H.
  match type of H with context [post ?r] => set (rq := r) in * end.
  exists rq. eexists. split; [exact H|]. clear H.
  destruct (post rq) as [rsp|e] eqn:Hp;
    [destruct (release rsp) as [[]|e] eqn:Hr;
     [destruct (status rsp =? 200)%Z eqn:Hs;
      [apply Z.eqb_eq in Hs | apply Z.eqb_neq in Hs]|]|];
    (split; [reflexivity|]);
    (split; [intros; same_answer; try congruence; reflexivity|]);
    (split; [intros rsp0 Hrsp Hok; same_answer; try congruence;
             split; intros Hx; try reflexivity; try assumption;
             try discriminate Hx; congruence|]);
    (split; [intros [[e0 He]|(rsp0 & Hrsp & [Hne|[e0 He]])]; same_answer;
             try congruence;
             eexists; (split; [|reflexivity]); discriminate|]);
    (split; [intros; same_answer; try congruence; reflexivity|]);
    intros e0 [He|(rsp0 & Hrsp & He)]; same_answer;
    try congruence; reflexivity.
Qed.

Lemma dispatch_message_outcome_witness :
  exists tr,
    dispatch_message sample_now (answers_with 500) release_ok
      (lit "21:26:80") (lit "Contact_alert_min_DS10A") sample_client
    = (Ok tt, sample_client, tr)
    /\ logs tr =
       [(INFO, lit "dispatch failed: HTTP status 500 epoch time 2015-09-22T15:39:07.000123+00:00 address 21:26:80 func Contact_alert_min_DS10A")].
Proof.
  destruct (dispatch_message_outcome sample_now (answers_with 500) release_ok
              (lit "21:26:80") (lit "Contact_alert_min_DS10A") sample_client)
    as (rq & tr & Heq & _ & _ & _ & _ & Hst & _).
  exists tr. split; [exact Heq|].
  rewrite (Hst {| status := 500 |}).
  - reflexivity.
  - reflexivity.
  - simpl. lia.
  - reflexivity.
Defined.

(** C8, the claim as it was written, fails when the answer has status
    200 and releasing it raises: the exception is caught by the same
    handler, and the dispatch logs a failure although the status was
    200. *)
Lemma dispatch_message_outcome_counterexample :
  exists tr,
    dispatch_message sample_now (answers_with 200) release_reset
      (lit "21:26:80") (lit "Contact_alert_min_DS10A") sample_client
    = (Ok tt, sample_client, tr)
    /\ posts tr
       = [{| meth := lit "POST";
             url := lit "http://example.com/api/21:26:80";
             data := lit "dispatch_time=2015-09-22T15%3A39%3A07.000123%2B00%3A00;func=Contact_alert_min_DS10A";
             headers := [(lit "content-type",
                          lit "application/x-www-form-urlencoded")] |}]
    /\ logs tr =
       [(INFO, lit "dispatch failed: Caught exception: Connection reset by peer epoch time 2015-09-22T15:39:07.000123+00:00 address 21:26:80 func Contact_alert_min_DS10A")].
Proof.
  eexists. split; [vm_compute; reflexivity|].
  split; vm_compute; reflexivity.
Qed.

Lemma quote_digit d :
  (d < 10)%N -> quote_byte (digit_char d) = [digit_char d].
Proof.
  intros Hd. unfold quote_byte, digit_char, always_safe.
  replace (d <? 10)%N with true by (symmetry; apply N.ltb_lt; exact Hd).
  replace ((48 <=? 48 + d) && (48 + d <=? 57))%N with true.
  - rewrite orb_true_r. reflexivity.
  - symmetry. apply andb_true_iff. split; apply N.leb_le; lia.
Qed.

Lemma quote_digits w : forall n, flat_map quote_byte (digits w n) = digits w n.
Proof.
  induction w as [|w IH]; intros n; simpl; [reflexivity|].
  rewrite flat_map_app, IH. simpl.
  rewrite quote_digit by (apply N.mod_lt; discriminate).
  reflexivity.
Qed.

(** The escaped timestamp, field by field: the colons and the plus sign
    of the ISO-8601 text are the only characters [quote] escapes. *)
Lemma quote_isoformat_fields d :
  flat_map quote_byte (isoformat d) =
  digits 4 (year d) ++ lit "-" ++ digits 2 (month d) ++ lit "-"
  ++ digits 2 (day d) ++ lit "T" ++ digits 2 (hour d) ++ lit "%3A"
  ++ digits 2 (minute d) ++ lit "%3A" ++ digits 2 (second d)
  ++ (if (microsecond d =? 0)%N then [] else lit "." ++ digits 6 (microsecond d))
  ++ lit "%2B00%3A00".
Proof.
  unfold isoformat.
  destruct (microsecond d =? 0)%N;
    repeat rewrite flat_map_app; repeat rewrite quote_digits; reflexivity.
Qed.

(** The requests of one dispatch: one, whatever the peer answers. *)
Lemma dispatch_message_posts now post release addr func s :
  posts (snd (dispatch_message now post release addr func s)) =
  [{| meth := lit "POST";
      url := entry_point s ++ addr;
      data := lit "dispatch_time=" ++ flat_map quote_byte (isoformat now)
              ++ lit ";func=" ++ func;
      headers := [(lit "content-type",
                   lit "application/x-www-form-urlencoded")] |}].
Proof.
  pose proof (dispatch_message_cases now post release addr func s) as H.
  cbv zeta in H.
  match type of H with context [post ?r] => set (rq := r) in * end.
  rewrite H. cbn [snd].
  destruct (post rq) as [rsp|e]; [|reflexivity].
  destruct (release rsp) as [[]|e]; [|reflexivity].
  destruct (status rsp =? 200)%Z; reflexivity.
Qed.

Example dispatch_message_sample_body :
  List.map data
    (posts (snd (dispatch_message sample_now (answers_with 200) release_ok
                   (lit "21:26:80") (lit "Contact_alert_min_DS10A")
                   sample_client)))
  = [lit "dispatch_time=2015-09-22T15%3A39%3A07.000123%2B00%3A00;func=Contact_alert_min_DS10A"].
Proof. reflexivity. Qed.

(** C9.  A dispatch makes exactly one HTTP request.  It is a POST to the
    entry point followed by the address; its only header is the content
    type [application/x-www-form-urlencoded] (the name in lower case);
    its body is [dispatch_time=], the ISO-8601 text of the current UTC
    time ([YYYY-MM-DDTHH:MM:SS[.ffffff]+00:00]) escaped by [quote], then
    [;func=] and the function label as it was parsed. *)
Theorem dispatch_message_request now post release addr func s :
  exists rq q,
    posts (snd (dispatch_message now post release addr func s)) = [rq]
    /\ meth rq = lit "POST"
    /\ url rq = entry_point s ++ addr
    /\ headers rq = [(lower (lit "Content-Type"),
                      lit "application/x-www-form-urlencoded")]
    /\ data rq = lit "dispatch_time=" ++ q ++ lit ";func=" ++ func
    /\ quote (isoformat now) = Ok q
    /\ isoformat now =
       digits 4 (year now) ++ lit "-" ++ digits 2 (month now) ++ lit "-"
       ++ digits 2 (day now) ++ lit "T" ++ digits 2 (hour now) ++ lit ":"
       ++ digits 2 (minute now) ++ lit ":" ++ digits 2 (second now)
       ++ (if (microsecond now =? 0)%N then []
           else lit "." ++ digits 6 (microsecond now))
       ++ lit "+00:00"
    /\ q =
       digits 4 (year now) ++ lit "-" ++ digits 2 (month now) ++ lit "-"
       ++ digits 2 (day now) ++ lit "T" ++ digits 2 (hour now) ++ lit "%3A"
       ++ digits 2 (minute now) ++ lit "%3A" ++ digits 2 (second now)
       ++ (if (microsecond now =? 0)%N then []
           else lit "." ++ digits 6 (microsecond now))
       ++ lit "%2B00%3A00".
Proof.
  eexists. exists (flat_map quote_byte (isoformat now)).
  split; [apply dispatch_message_posts|].
  repeat (split; [reflexivity|]).
  split; [apply quote_isoformat|].
  split; [reflexivity|].
  apply quote_isoformat_fields.
Qed.

(** C10.  The constructor, given an entry point that is not empty,
    stores an entry point that ends with [/]: the given one when it ends
    with [/] already, the given one followed by [/] otherwise; so the
    URL of every dispatch has a [/] between the base and the address.
    Given the empty entry point the constructor raises [IndexError]: it
    reads the last character. *)
Theorem init_entry_point :
  (forall host0 ep,
      ep <> [] ->
      exists c,
        __init__ host0 ep = Ok c
        /\ ends_with_slash (entry_point c)
        /\ (ends_with_slash ep -> entry_point c = ep)
        /\ (~ ends_with_slash ep -> entry_point c = ep ++ lit "/")
        /\ forall now post release addr func,
            exists base rq,
              posts (snd (dispatch_message now post release addr func c)) = [rq]
              /\ url rq = base ++ lit "/" ++ addr)
  /\ (forall host0, exists m, __init__ host0 [] = Raise (IndexError m)).
Proof.
  split.
  - intros host0 ep Hne.
    destruct (exists_last Hne) as (b & c & ->).
    unfold __init__, last_char. rewrite rev_app_distr. cbn [rev app].
    eexists. split; [reflexivity|]. cbn [entry_point].
    assert (Hend : ends_with_slash (b ++ [c]) <-> c = 47%N).
    { split.
      - intros [b' Hb']. change (lit "/") with [47%N] in Hb'.
        apply app_inj_tail in Hb'. apply Hb'.
      - intros ->. exists b. reflexivity. }
    assert (Hfin : ends_with_slash
                     (if negb (c =? 47)%N then (b ++ [c]) ++ lit "/" else b ++ [c])).
    { destruct (N.eqb_spec c 47) as [->|Hc]; cbn [negb].
      - exists b. reflexivity.
      - exists (b ++ [c]). reflexivity. }
    split; [exact Hfin|].
    split.
    { intros H. apply Hend in H. subst c. reflexivity. }
    split.
    { intros H. destruct (N.eqb_spec c 47) as [->|Hc]; cbn [negb].
      - exfalso. apply H. apply Hend. reflexivity.
      - reflexivity. }
    intros now post release addr func.
    destruct Hfin as [base Hbase].
    exists base. eexists. split; [apply dispatch_message_posts|].
    cbn [url entry_point]. rewrite Hbase, <- app_assoc. reflexivity.
  - intros host0. eexists. reflexivity.
Qed.

Lemma init_entry_point_witness :
  exists c,
    __init__ (lit "127.0.0.1") (lit "http://example.com/api") = Ok c
    /\ entry_point c = lit "http://example.com/api/".
Proof.
  destruct (proj1 init_entry_point (lit "127.0.0.1")
              (lit "http://example.com/api"))
    as (c & Hc & _ & _ & Happ & _).
  - discriminate.
  - exists c. split; [exact Hc|].
    rewrite Happ; [reflexivity|].
    intros [b Hb]. apply (f_equal (@rev _)) in Hb.
    rewrite rev_app_distr in Hb. vm_compute in Hb. discriminate Hb.
Defined.

(** ** The worker *)

Lemma self_loop_top s : self (loop_top s) = s.
Proof. unfold loop_top. destruct (nonzero _); reflexivity. Qed.

Lemma at_loop_top s :
  at_ (loop_top s) = if nonzero (reconnect_time s) then Sleeping else Connecting.
Proof. unfold loop_top. destruct (nonzero _); reflexivity. Qed.

Lemma Qgtb_lt a b : Qgtb a b = true <-> b < a.
Proof.
  unfold Qgtb. rewrite negb_true_iff, <- not_true_iff_false, Qle_bool_iff.
  split; [apply Qnot_le_lt | apply Qlt_not_le].
Qed.

Lemma nonzero_positive t : 0 < t -> nonzero t = true.
Proof.
  intros H. unfold nonzero.
  rewrite negb_true_iff, <- not_true_iff_false, Qeq_bool_iff.
  intros E. rewrite E in H. exact (Qlt_irrefl 0 H).
Qed.

(** All the cases of one step. *)
Ltac step_cases H :=
  unfold worker_step in H;
  repeat match type of H with
         | context [match ?x with _ => _ end] => destruct x eqn:?
         end;
  try discriminate H;
  injection H as <- <-.

Lemma worker_run_app env1 : forall c env2,
  worker_run c (env1 ++ env2) =
  match worker_run c env1 with
  | Some (c1, tr1) =>
    match worker_run c1 env2 with
    | Some (c2, tr2) => Some (c2, tr1 ++ tr2)
    | None => None
    end
  | None => None
  end.
Proof.
  induction env1 as [|a env1 IH]; intros c env2; simpl.
  - destruct (worker_run c env2) as [[c2 tr2]|]; reflexivity.
  - destruct (worker_step c a) as [[c1 evs]|]; [|reflexivity].
    rewrite IH. destruct (worker_run c1 env1) as [[c1' tr1]|]; [|reflexivity].
    destruct (worker_run c1' env2) as [[c2 tr2]|]; [|reflexivity].
    rewrite app_assoc. reflexivity.
Qed.

(** A property of configurations and traces that holds at the start and
    that every step keeps holds after every run. *)
Lemma worker_run_invariant (ok : answer -> Prop) (P : config -> trace -> Prop) :
  (forall c tr a c1 evs,
      P c tr -> ok a -> worker_step c a = Some (c1, evs) -> P c1 (tr ++ evs)) ->
  forall env c0 tr0 c tr,
    P c0 tr0 -> Forall ok env -> worker_run c0 env = Some (c, tr) ->
    P c (tr0 ++ tr).
Proof.
  intros Hstep. induction env as [|a env IH]; intros c0 tr0 c tr H0 Hok Hrun.
  - simpl in Hrun. injection Hrun as <- <-. rewrite app_nil_r. exact H0.
  - simpl in Hrun. inversion Hok as [|? ? Ha Hok']; subst.
    destruct (worker_step c0 a) as [[c1 evs]|] eqn:Hs; [|discriminate].
    destruct (worker_run c1 env) as [[c' tr']|] eqn:Hr; [|discriminate].
    injection Hrun as <- <-. rewrite app_assoc.
    apply (IH c1 (tr0 ++ evs)); [|assumption|assumption].
    apply (Hstep c0 tr0 a); assumption.
Qed.

(** A coroutine that has returned or raised takes no step. *)
Lemma finished_no_step c a :
  at_ c = Returned \/ (exists e, at_ c = Raised e) -> worker_step c a = None.
Proof.
  intros [H|[e H]]; unfold worker_step; rewrite H; destruct a; reflexivity.
Qed.

Lemma finished_no_run c env c' tr :
  at_ c = Returned \/ (exists e, at_ c = Raised e) ->
  worker_run c env = Some (c', tr) -> env = [] /\ c' = c /\ tr = [].
Proof.
  intros Hf Hrun. destruct env as [|a env]; simpl in Hrun.
  - injection Hrun as <- <-. auto.
  - rewrite (finished_no_step c a Hf) in Hrun. discriminate.
Qed.

(** Every step leaves an event that opens it, then only log lines and
    spawns. *)
Lemma step_shape c a c1 evs :
  worker_step c a = Some (c1, evs) ->
  exists x rest, evs = x :: rest /\ opens_step x = true
                 /\ forallb (fun e => negb (opens_step e)) rest = true.
Proof.
  intros H. step_cases H; eexists; eexists; (split; [reflexivity|]);
    split; reflexivity.
Qed.

Lemma skip_closed rest : forall (p q l : trace) x,
  forallb (fun e => negb (opens_step e)) rest = true ->
  opens_step x = true ->
  rest ++ l = p ++ x :: q ->
  exists p', p = rest ++ p' /\ l = p' ++ x :: q.
Proof.
  induction rest as [|r rest IH]; intros p q l x Hrest Hx E; simpl in *.
  - exists p. auto.
  - apply andb_true_iff in Hrest. destruct Hrest as [Hr Hrest].
    destruct p as [|y p]; simpl in E; injection E as -> E.
    + rewrite Hx in Hr. discriminate.
    + destruct (IH p q l x Hrest Hx E) as (p' & -> & ->).
      exists p'. auto.
Qed.

(** An event that opens a step marks a point the run went through: the
    trace before it is the trace of a shorter run, and the step taken
    there left the event. *)
Lemma worker_run_split env : forall c0 c tr p x q,
  worker_run c0 env = Some (c, tr) ->
  tr = p ++ x :: q -> opens_step x = true ->
  exists env1 a env2 c1 c2 evs tr2,
    env = env1 ++ a :: env2
    /\ worker_run c0 env1 = Some (c1, p)
    /\ worker_step c1 a = Some (c2, x :: evs)
    /\ worker_run c2 env2 = Some (c, tr2)
    /\ q = evs ++ tr2.
Proof.
  induction env as [|a env IH]; intros c0 c tr p x q Hrun E Hx; simpl in Hrun.
  - injection Hrun as <- <-. destruct p; discriminate.
  - destruct (worker_step c0 a) as [[c1 evs]|] eqn:Hs; [|discriminate].
    destruct (worker_run c1 env) as [[c' tr']|] eqn:Hr; [|discriminate].
    injection Hrun as <- <-.
    destruct (step_shape _ _ _ _ Hs) as (y & rest & -> & Hy & Hrest).
    destruct p as [|y' p]; simpl in E; injection E as -> E.
    + exists [], a, env, c0, c1, rest, tr'. simpl. subst q. auto.
    + destruct (skip_closed _ _ _ _ _ Hrest Hx E) as (p' & -> & Etr).
      destruct (IH c1 c' tr' p' x q Hr Etr Hx)
        as (env1 & a1 & env2 & d1 & d2 & evs1 & tr2 & -> & H1 & H2 & H3 & ->).
      exists (a :: env1), a1, env2, d1, d2, evs1, tr2.
      simpl. rewrite Hs, H1. auto.
Qed.

Lemma episode_clock_app tr evs :
  episode_clock (tr ++ evs) = fold_left clock_after evs (episode_clock tr).
Proof. apply fold_left_app. Qed.

Lemma sleep_owed_app tr evs :
  sleep_owed (tr ++ evs) = fold_left owes evs (sleep_owed tr).
Proof. apply fold_left_app. Qed.

Lemma worker_inv_start s : reconnect_time s = 0 -> worker_inv (worker s) [].
Proof.
  intros H. unfold worker_inv, worker. rewrite self_loop_top, at_loop_top, H.
  split; [reflexivity|]. intros Hn. discriminate Hn.
Qed.

Lemma worker_inv_step c tr a c1 evs :
  worker_inv c tr -> True -> worker_step c a = Some (c1, evs) ->
  worker_inv c1 (tr ++ evs).
Proof.
  intros [Hclock Hpc] _ Hs. unfold worker_inv.
  rewrite episode_clock_app, <- Hclock.
  step_cases Hs;
    repeat match goal with
           | H : at_ c = _ |- _ => rewrite H in Hpc
           | H : negb _ = true |- _ => apply negb_true_iff in H
           | H : negb _ = false |- _ => apply negb_false_iff in H
           end;
    rewrite ?self_loop_top, ?at_loop_top; cbn [self at_ fold_left clock_after
      set_reconnect_time set_streams reconnect_time host].
  - (* the sleep is over *)
    split; [reflexivity|]. split; [exact Hpc|]. exists tr. reflexivity.
  - (* the deadline has passed *)
    destruct Hpc as [Hnz _]. rewrite Hnz. split; [reflexivity|].
    exists (tr ++ [EvTime t]). rewrite <- app_assoc. reflexivity.
  - (* the deadline has not passed *)
    destruct Hpc as (Hnz & p & ->). rewrite Hnz. split; [reflexivity|].
    intros _. exists p, t. rewrite <- app_assoc. split; [reflexivity|].
    intros Hlt. apply Qgtb_lt in Hlt. congruence.
  - (* connected *)
    split; reflexivity.
  - (* first failure of an episode *)
    split; [reflexivity|]. split; [assumption|].
    destruct e; try discriminate. eauto.
  - (* later failure *)
    split; [reflexivity|].
    match goal with H : nonzero _ = true |- _ => rewrite H; reflexivity end.
  - (* connect raised something else *)
    split; reflexivity.
  - (* the clock starts after a failed attempt *)
    destruct Hpc as [Hz _]. rewrite Hz. split; [reflexivity|].
    destruct (nonzero t) eqn:Ht; [reflexivity | discriminate].
  - (* end of stream *)
    split; [reflexivity|]. split; [exact Hpc|]. exists tr. reflexivity.
  - (* a line, dispatched *)
    split; [reflexivity|].
    match goal with H : at_ c = Reading |- _ => rewrite H end. exact Hpc.
  - (* a line, ignored *)
    split; [reflexivity|].
    match goal with H : at_ c = Reading |- _ => rewrite H end. exact Hpc.
  - (* a line that is not UTF-8 *)
    split; reflexivity.
  - (* readline raised *)
    split; reflexivity.
  - (* the clock starts after the stream closed *)
    destruct Hpc as [Hz _]. rewrite Hz. cbn [nonzero]. split; [reflexivity|].
    destruct (nonzero t) eqn:Ht; [reflexivity | discriminate].
Qed.

Lemma worker_inv_run s env c tr :
  reconnect_time s = 0 -> worker_run (worker s) env = Some (c, tr) ->
  worker_inv c tr.
Proof.
  intros H0 Hrun.
  apply (worker_run_invariant (fun _ => True) worker_inv worker_inv_step
           env (worker s) [] c tr).
  - apply worker_inv_start. exact H0.
  - apply Forall_forall. intros; exact I.
  - exact Hrun.
Qed.

Lemma nonzero_true t : ~ t == 0 -> nonzero t = true.
Proof.
  intros H. unfold nonzero.
  rewrite negb_true_iff, <- not_true_iff_false, Qeq_bool_iff. exact H.
Qed.

Lemma owed_inv_step c tr a c1 evs :
  owed_inv c tr -> clock_nonzero a -> worker_step c a = Some (c1, evs) ->
  owed_inv c1 (tr ++ evs).
Proof.
  intros Hinv Hpos Hs. unfold owed_inv in *.
  rewrite sleep_owed_app.
  step_cases Hs;
    repeat match goal with
           | H : at_ c = _ |- _ => rewrite H in Hinv
           | H : negb _ = true |- _ => apply negb_true_iff in H
           | H : negb _ = false |- _ => apply negb_false_iff in H
           end;
    rewrite ?at_loop_top;
    cbn [self at_ fold_left owes set_reconnect_time reconnect_time];
    try (intros _; exact I);
    try exact Hinv;
    try match goal with H : at_ c = ?x |- _ -> match at_ c with _ => _ end =>
          rewrite H; exact Hinv
        end.
  - (* the sleep is over: nothing is owed *)
    discriminate.
  - (* later failure *)
    match goal with H : nonzero _ = true |- _ => rewrite H end.
    intros _. exact I.
  - (* the clock starts after a failed attempt *)
    subst a. simpl in Hpos. rewrite (nonzero_true _ Hpos). intros _. exact I.
  - (* the clock starts after the stream closed *)
    intros H. destruct (Hinv H).
Qed.

Lemma owed_inv_run s env c tr :
  Forall clock_nonzero env -> worker_run (worker s) env = Some (c, tr) ->
  owed_inv c tr.
Proof.
  intros Hpos Hrun.
  apply (worker_run_invariant clock_nonzero owed_inv owed_inv_step
           env (worker s) [] c tr).
  - unfold owed_inv. discriminate.
  - exact Hpos.
  - exact Hrun.
Qed.

(** What opens a step tells where the coroutine was. *)
Lemma step_opened_by_connect c a c1 h pt r evs :
  worker_step c a = Some (c1, EvConnect h pt r :: evs) -> at_ c = Connecting.
Proof. intros H. step_cases H; reflexivity. Qed.

Lemma step_opened_by_time c a c1 t evs :
  worker_step c a = Some (c1, EvTime t :: evs) ->
  a = Clock t /\ (at_ c = Checking \/ at_ c = Failing \/ at_ c = Lost).
Proof. intros H. step_cases H; auto. Qed.

(** A sleep of a second or more lies on the way from a failed attempt to
    a point where none is owed. *)
Lemma owed_cleared mid : forall b,
  fold_left owes mid b = false ->
  b = true ->
  exists secs, In (EvSleep secs) mid /\ 1 <= secs.
Proof.
  induction mid as [|e mid IH]; intros b H Hb; simpl in H.
  - congruence.
  - destruct e as [secs| | h pt r | | | | |];
      try (destruct (IH _ H Hb) as (s0 & Hin & Hle);
           exists s0; split; [right; exact Hin | exact Hle]).
    + simpl in H. destruct (Qle_bool 1 secs) eqn:Hq.
      * exists secs. split; [left; reflexivity|]. apply Qle_bool_iff. exact Hq.
      * destruct (IH _ H Hb) as (s0 & Hin & Hle).
        exists s0. split; [right; exact Hin | exact Hle].
    + simpl in H.
      assert (Hb' : (match r with Ok _ => b | Raise _ => true end) = true)
        by (destruct r; [exact Hb | reflexivity]).
      destruct (IH _ H Hb') as (s0 & Hin & Hle).
      exists s0. split; [right; exact Hin | exact Hle].
Qed.

Lemma sleep_then_check s env c p secs :
  reconnect_time s = 0 ->
  worker_run (worker s) env = Some (c, p ++ [EvSleep secs]) ->
  (at_ c = Checking \/ at_ c = Failing \/ at_ c = Lost) ->
  at_ c = Checking /\ reconnect_time (self c) = episode_clock p.
Proof.
  intros H0 Hrun Hat.
  destruct (worker_inv_run _ _ _ _ H0 Hrun) as [Hclock Hpc].
  split.
  - destruct Hat as [H|[H|H]]; [exact H| |]; rewrite H in Hpc; exfalso.
    + destruct Hpc as (_ & p' & m & E).
      apply app_inj_tail in E. destruct E as [_ E]. discriminate E.
    + destruct Hpc as (_ & p' & E).
      change (p' ++ [EvReadline (Ok []);
                     EvLog WARN (lit "Lost connection to mochad. Retrying.")])
        with (p' ++ [EvReadline (Ok [])]
                 ++ [EvLog WARN (lit "Lost connection to mochad. Retrying.")])
        in E.
      rewrite app_assoc in E.
      apply app_inj_tail in E. destruct E as [_ E]. discriminate E.
  - rewrite Hclock, episode_clock_app. reflexivity.
Qed.

(** A run whose trace is empty has taken no step. *)
Lemma worker_run_silent env c c' :
  worker_run c env = Some (c', []) -> env = [] /\ c' = c.
Proof.
  destruct env as [|a env]; simpl; intros H.
  - injection H as <-. auto.
  - destruct (worker_step c a) as [[c1 evs]|] eqn:Hs; [|discriminate].
    destruct (worker_run c1 env) as [[c2 tr2]|]; [|discriminate].
    injection H as _ H.
    destruct (step_shape _ _ _ _ Hs) as (x & rest & -> & _). discriminate H.
Qed.

(** Where the worker is when the last event is a failed attempt. *)
Lemma after_failed_attempt s env c p h pt m :
  worker_run (worker s) env
  = Some (c, p ++ [EvConnect h pt (Raise (OSError m))]) ->
  (at_ c = Sleeping /\ nonzero (reconnect_time (self c)) = true)
  \/ (at_ c = Failing /\ nonzero (reconnect_time (self c)) = false).
Proof.
  intros Hrun.
  destruct (worker_run_split _ _ _ _ _ _ _ Hrun eq_refl eq_refl)
    as (env1 & a & env2 & c1 & c2 & evs & tr2 & _ & _ & H2 & H3 & E).
  symmetry in E. apply app_eq_nil in E. destruct E as [-> ->].
  destruct (worker_run_silent _ _ _ H3) as [_ ->].
  step_cases H2;
    repeat match goal with
           | H : negb _ = true |- _ => apply negb_true_iff in H
           | H : negb _ = false |- _ => apply negb_false_iff in H
           end;
    rewrite ?at_loop_top, ?self_loop_top; cbn [self at_].
  - right. auto.
  - left. match goal with H : nonzero _ = true |- _ => rewrite H end. auto.
  - subst e. discriminate.
Qed.

(** C1 (amended).  In every run of the worker:
    - where the worker attempts to connect, an attempt that fails with an
      [OSError] is taken and leaves it in its sleep of one second or
      about to start the reconnect clock;
    - once a connection attempt has failed with an [OSError], the worker
      is in its sleep of one second, at once when the reconnect clock is
      set, after it has read a time other than zero and logged the
      warning when it is not; it leaves the sleep only when the second
      is over, to read the time;
    - it then computes the difference between that time and the
      reconnect clock in double precision: over 60, it logs the error
      and returns, and takes no further step; otherwise it attempts to
      connect;
    - so, in the trace, when the clock never reads zero, a sleep of a
      second or more lies between a failed attempt and the next attempt;
      nothing but the error line follows a reading whose computed
      difference is over 60; and every attempt made while the clock is
      set follows a sleep and a reading whose computed difference is not
      over 60;
    - a computed difference over 60 needs more than 60 seconds elapsed,
      and 61 seconds elapsed or more give a computed difference over
      60. *)
Theorem worker_reconnect_policy s env c tr :
  reconnect_time s = 0 ->
  worker_run (worker s) env = Some (c, tr) ->
  (at_ c = Connecting ->
   forall m, exists c1,
       worker_step c (Connected (Raise (OSError m)))
       = Some (c1, [EvConnect (host (self c)) 1099 (Raise (OSError m))])
       /\ self c1 = self c
       /\ (at_ c1 = Sleeping \/ at_ c1 = Failing))
  /\ (forall p h pt m,
      tr = p ++ [EvConnect h pt (Raise (OSError m))] ->
      at_ c = Sleeping
      \/ (at_ c = Failing
          /\ forall t,
              ~ t == 0 ->
              worker_step c (Clock t)
              = Some ({| self := set_reconnect_time (self c) t;
                         at_ := Sleeping |},
                      [EvTime t;
                       EvLog WARN (lit "Could not connect to mochad. Retrying")])))
  /\ (at_ c = Sleeping ->
      worker_step c Slept
      = Some ({| self := self c; at_ := Checking |}, [EvSleep 1])
      /\ forall a, a <> Slept -> worker_step c a = None)
  /\ (at_ c = Checking ->
      forall t,
        (60 < double_sub t (episode_clock tr) ->
         worker_step c (Clock t)
         = Some ({| self := self c; at_ := Returned |},
                 [EvTime t; EvLog ERROR (lit "Could not reconnect after 60s")])
         /\ forall a,
             worker_step {| self := self c; at_ := Returned |} a = None)
        /\ (~ 60 < double_sub t (episode_clock tr) ->
            worker_step c (Clock t)
            = Some ({| self := self c; at_ := Connecting |}, [EvTime t])))
  /\ (Forall clock_nonzero env ->
      forall pre h pt e mid h' pt' r post,
        tr = pre ++ EvConnect h pt (Raise e) :: mid
                 ++ EvConnect h' pt' r :: post ->
        exists secs, In (EvSleep secs) mid /\ 1 <= secs)
  /\ (forall p secs t q,
        tr = p ++ EvSleep secs :: EvTime t :: q ->
        60 < double_sub t (episode_clock p) ->
        q = [EvLog ERROR (lit "Could not reconnect after 60s")]
        /\ at_ c = Returned
        /\ forall a, worker_step c a = None)
  /\ (forall p h pt r q,
        tr = p ++ EvConnect h pt r :: q ->
        nonzero (episode_clock p) = true ->
        exists p' t,
          p = p' ++ [EvSleep 1; EvTime t]
          /\ ~ 60 < double_sub t (episode_clock p))
  /\ (forall a b,
        (60 < double_sub a b -> 60 < a - b)
        /\ (61 <= a - b -> 60 < double_sub a b)).
Proof.
  intros H0 Hrun.
  split; [|split; [|split; [|split; [|split; [|split; [|split]]]]]].
  - (* a failed attempt *)
    intros Hat m. unfold worker_step. rewrite Hat. cbn [is_OSError].
    destruct (nonzero (reconnect_time (self c))) eqn:Hnz; cbn [negb];
      eexists; (split; [reflexivity|]);
      rewrite ?self_loop_top, ?at_loop_top, ?Hnz; cbn [self at_]; auto.
  - (* after a failed attempt *)
    intros p h pt m ->.
    destruct (after_failed_attempt _ _ _ _ _ _ _ Hrun) as [[Hat _]|[Hat Hz]].
    + left. exact Hat.
    + right. split; [exact Hat|]. intros t Ht.
      unfold worker_step. rewrite Hat. unfold loop_top.
      cbn [reconnect_time set_reconnect_time]. rewrite (nonzero_true _ Ht).
      reflexivity.
  - (* the sleep *)
    intros Hat. unfold worker_step. rewrite Hat. split; [reflexivity|].
    intros a Ha. destruct a; [congruence| | |]; reflexivity.
  - (* the check *)
    intros Hat t.
    destruct (worker_inv_run _ _ _ _ H0 Hrun) as [Hclock _].
    unfold worker_step. rewrite Hat, <- Hclock. split.
    + intros Hlate. apply Qgtb_lt in Hlate. rewrite Hlate.
      split; [reflexivity|]. intros a. destruct a; reflexivity.
    + intros Hin.
      destruct (Qgtb (double_sub t (reconnect_time (self c))) 60) eqn:E;
        [|reflexivity].
      apply Qgtb_lt in E. destruct (Hin E).
  - intros Hpos pre h pt e mid h' pt' r post E.
    change (pre ++ EvConnect h pt (Raise e) :: mid ++ EvConnect h' pt' r :: post)
      with (pre ++ (EvConnect h pt (Raise e) :: mid) ++ EvConnect h' pt' r :: post)
      in E.
    rewrite app_assoc in E.
    destruct (worker_run_split _ _ _ _ _ _ _ Hrun E eq_refl)
      as (env1 & a & env2 & c1 & c2 & evs & tr2 & -> & H1 & H2 & _ & _).
    apply step_opened_by_connect in H2.
    apply Forall_app in Hpos. destruct Hpos as [Hpos1 _].
    pose proof (owed_inv_run _ _ _ _ Hpos1 H1) as Howed. unfold owed_inv in Howed.
    rewrite H2 in Howed.
    destruct (sleep_owed (pre ++ EvConnect h pt (Raise e) :: mid)) eqn:Hso;
      [destruct (Howed eq_refl)|].
    rewrite sleep_owed_app in Hso. simpl in Hso.
    exact (owed_cleared _ _ Hso eq_refl).
  - intros p secs t q E Hlate.
    change (p ++ EvSleep secs :: EvTime t :: q)
      with (p ++ [EvSleep secs] ++ EvTime t :: q) in E.
    rewrite app_assoc in E.
    destruct (worker_run_split _ _ _ _ _ _ _ Hrun E eq_refl)
      as (env1 & a & env2 & c1 & c2 & evs & tr2 & -> & H1 & H2 & H3 & ->).
    pose proof (step_opened_by_time _ _ _ _ _ H2) as [-> Hat].
    destruct (sleep_then_check _ _ _ _ _ H0 H1 Hat) as [Hck Hrt].
    unfold worker_step in H2. rewrite Hck, Hrt in H2.
    replace (Qgtb (double_sub t (episode_clock p)) 60) with true in H2
      by (symmetry; apply Qgtb_lt; exact Hlate).
    injection H2 as <- <-.
    destruct (finished_no_run {| self := self c1; at_ := Returned |} env2 c tr2
                (or_introl eq_refl) H3)
      as (_ & -> & ->).
    split; [reflexivity|]. split; [reflexivity|].
    intros a. apply finished_no_step. left. reflexivity.
  - intros p h pt r q E Hset.
    destruct (worker_run_split _ _ _ _ _ _ _ Hrun E eq_refl)
      as (env1 & a & env2 & c1 & c2 & evs & tr2 & -> & H1 & H2 & _ & _).
    apply step_opened_by_connect in H2.
    destruct (worker_inv_run _ _ _ _ H0 H1) as [Hclock Hpc].
    rewrite H2, Hclock in Hpc. exact (Hpc Hset).
  - intros a b. split; [apply double_sub_gt_60 | apply double_sub_ge_61].
Qed.

Lemma worker_reconnect_policy_witness :
  exists s,
    worker_run (worker sample_client) sample_outage
    = Some ({| self := s; at_ := Returned |},
            [EvConnect (lit "127.0.0.1") 1099
               (Raise (OSError (lit "Connection refused")));
             EvTime 100;
             EvLog WARN (lit "Could not connect to mochad. Retrying");
             EvSleep 1; EvTime 101;
             EvConnect (lit "127.0.0.1") 1099
               (Raise (OSError (lit "Connection refused")));
             EvSleep 1; EvTime (3215 # 20);
             EvLog ERROR (lit "Could not reconnect after 60s")])
    /\ reconnect_time s = 100.
Proof.
  destruct (worker_run (worker sample_client) sample_outage)
    as [[c tr]|] eqn:Hrun; [|vm_compute in Hrun; discriminate Hrun].
  destruct (worker_reconnect_policy sample_client sample_outage c tr
              eq_refl Hrun) as (_ & _ & _ & _ & _ & Hstop & _).
  pose proof Hrun as Hval. vm_compute in Hval. injection Hval as Hc Htr.
  destruct (Hstop (firstn 6 tr) 1 (3215 # 20) (skipn 8 tr)) as (Hq & Hret & _).
  - rewrite <- Htr. reflexivity.
  - rewrite <- Htr. vm_compute. reflexivity.
  - exists (self c). rewrite <- Hc in *. rewrite <- Htr. split; reflexivity.
Defined.

(** C1, the claim as it was written, fails twice.  With a clock that
    reads zero when the first attempt fails, the reconnect clock stays
    unset and the second attempt follows the first with no sleep.  With
    a clock that reads the double nearest to 0.1 at the first failure and
    the double nearest to 60.1 after the sleep, more than 60 seconds have
    elapsed, yet their difference as doubles is 60 and the worker
    attempts again. *)
Lemma worker_reconnect_policy_counterexample :
  (exists c,
      worker_run (worker sample_client)
        [Connected (Raise (OSError (lit "Connection refused"))); Clock 0;
         Connected (Raise (OSError (lit "Connection refused")))]
      = Some (c,
              [EvConnect (lit "127.0.0.1") 1099
                 (Raise (OSError (lit "Connection refused")));
               EvTime 0;
               EvLog WARN (lit "Could not connect to mochad. Retrying");
               EvConnect (lit "127.0.0.1") 1099
                 (Raise (OSError (lit "Connection refused")))]))
  /\ 60 < (8458323050155213 # 140737488355328)
          - (3602879701896397 # 36028797018963968)
  /\ exists c,
      worker_run (worker sample_client)
        [Connected (Raise (OSError (lit "Connection refused")));
         Clock (3602879701896397 # 36028797018963968);
         Slept; Clock (8458323050155213 # 140737488355328);
         Connected (Raise (OSError (lit "Connection refused")))]
      = Some (c,
              [EvConnect (lit "127.0.0.1") 1099
                 (Raise (OSError (lit "Connection refused")));
               EvTime (3602879701896397 # 36028797018963968);
               EvLog WARN (lit "Could not connect to mochad. Retrying");
               EvSleep 1;
               EvTime (8458323050155213 # 140737488355328);
               EvConnect (lit "127.0.0.1") 1099
                 (Raise (OSError (lit "Connection refused")))]).
Proof.
  split; [|split].
  - eexists. vm_compute. reflexivity.
  - reflexivity.
  - eexists. vm_compute. reflexivity.
Qed.



(** C3 (the code departs from the claim).  A connection is made; the
    daemon then sends a line that is not UTF-8, or the read fails with a
    reset of the connection.  In both runs the worker raises and is over,
    although no reconnect deadline has passed: nothing in the read loop
    catches the exception. *)
Theorem worker_dies_on_read_error :
  (exists s m,
      worker_run (worker sample_client)
                 [Connected (Ok 1%nat); Line (Ok [xff; x0a])]
      = Some ({| self := s; at_ := Raised (UnicodeDecodeError m) |},
              [EvConnect (lit "127.0.0.1") 1099 (Ok 1%nat);
               EvLog INFO (lit "Connected to mochad");
               EvReadline (Ok [xff; x0a])]))
  /\ (exists s,
        worker_run (worker sample_client)
                   [Connected (Ok 1%nat);
                    Line (Raise (OSError (lit "Connection reset by peer")))]
        = Some ({| self := s;
                   at_ := Raised (OSError (lit "Connection reset by peer")) |},
                [EvConnect (lit "127.0.0.1") 1099 (Ok 1%nat);
                 EvLog INFO (lit "Connected to mochad");
                 EvReadline (Raise (OSError (lit "Connection reset by peer")))])).
Proof.
  split.
  - eexists. eexists. vm_compute. reflexivity.
  - eexists. vm_compute. reflexivity.
Qed.






(** * Further properties of the code *)

(** ** The parser and the test of the read loop *)

Lemma event_of_some_inv line a f :
  event_of line = Some (a, f) ->
  tag_matches line /\ (45 < List.length line)%nat
  /\ a = slice 30 38 line /\ f = slice_from 45 line.
Proof.
  intros H.
  destruct (list_eq_dec N.eq_dec (slice 15 23 line) tag) as [Ht|Ht].
  - destruct (Nat.lt_ge_cases 45 (List.length line)) as [Hl|Hl].
    + rewrite (event_of_well_formed line Ht Hl) in H.
      injection H as <- <-. auto.
    + rewrite event_of_short in H by lia. discriminate H.
  - rewrite (event_of_mismatch line Ht) in H. discriminate H.
Qed.

(** X1.  A line gives an event exactly when it carries the tag at
    offsets 15..22 and is longer than 45 characters, and the event is
    then the pair of its slices: a tagged line that stops before the
    function label gives none. *)
Theorem event_of_some_iff line a f :
  event_of line = Some (a, f) <->
  tag_matches line /\ (45 < List.length line)%nat
  /\ a = slice 30 38 line /\ f = slice_from 45 line.
Proof.
  split.
  - apply event_of_some_inv.
  - intros (Ht & Hl & -> & ->). apply event_of_well_formed; assumption.
Qed.

Lemma lstrip_spaces ws l :
  forallb isspace ws = true -> lstrip (ws ++ l) = lstrip l.
Proof.
  induction ws as [|w ws IH]; intros H; [reflexivity|].
  simpl in H. apply andb_true_iff in H. destruct H as [Hw Hws].
  simpl. rewrite Hw. apply IH. exact Hws.
Qed.

Lemma rstrip_spaces s c ws :
  isspace c = false -> forallb isspace ws = true ->
  rstrip ((s ++ [c]) ++ ws) = s ++ [c].
Proof.
  intros Hc Hws. unfold rstrip.
  rewrite rev_app_distr, lstrip_spaces.
  - rewrite rev_app_distr. cbn [rev app lstrip]. rewrite Hc.
    change (c :: rev s) with ([c] ++ rev s).
    rewrite rev_app_distr, rev_involutive. reflexivity.
  - rewrite forallb_forall in *. intros x Hx. apply Hws.
    apply in_rev. exact Hx.
Qed.

(** The stripped text never ends with a white character. *)
Lemma rstrip_last s t c : rstrip s = t ++ [c] -> isspace c = false.
Proof.
  unfold rstrip. intros H.
  apply (f_equal (@rev _)) in H.
  rewrite rev_involutive, rev_app_distr in H. cbn [rev app] in H.
  revert H. generalize (rev s). intros l.
  induction l as [|x l IH]; simpl; intros H; [discriminate H|].
  destruct (isspace x) eqn:Hx; [exact (IH H)|].
  injection H as -> _. exact Hx.
Qed.

(** X2.  Round trip with the daemon's format.  A line made of a
    14-character timestamp, the tag, an 8-character address and a
    function label that ends with a character that is not white, followed
    by any white tail (the newline), is read back by the read loop as
    that address and that label: the step spawns this one dispatch. *)
Theorem rfsec_line_round_trip ts addr func ch ws :
  List.length ts = 14%nat -> List.length addr = 8%nat ->
  isspace ch = false -> forallb isspace ws = true ->
  event_of (rstrip (rfsec_line ts addr (func ++ [ch]) ++ ws))
  = Some (addr, func ++ [ch])
  /\ forall (c : config) (b : bytes),
      at_ c = Reading -> b <> [] ->
      decode b = Ok (rfsec_line ts addr (func ++ [ch]) ++ ws) ->
      worker_step c (Line (Ok b))
      = Some (c, [EvReadline (Ok b); EvSpawn addr (func ++ [ch])]).
Proof.
  intros Hts Haddr Hch Hws.
  assert (Hstrip : rstrip (rfsec_line ts addr (func ++ [ch]) ++ ws)
                   = rfsec_line ts addr (func ++ [ch])).
  { unfold rfsec_line. rewrite !app_assoc.
    rewrite <- !app_assoc. rewrite !app_assoc.
    apply rstrip_spaces; assumption. }
  assert (Hev : event_of (rfsec_line ts addr (func ++ [ch]))
                = Some (addr, func ++ [ch])).
  { assert (Hsl : forall l a f,
               tag_matches l /\ (45 < List.length l)%nat
               /\ a = slice 30 38 l /\ f = slice_from 45 l ->
               event_of l = Some (a, f)).
    { intros l a f (Ht & Hl & -> & ->).
      apply event_of_well_formed; assumption. }
    apply Hsl.
    assert (E : forall n rest,
               skipn (14 + n) (ts ++ rest) = skipn n rest).
    { intros n rest. rewrite skipn_app, Hts.
      rewrite (skipn_all2 ts) by lia.
      replace (14 + n - 14)%nat with n by lia. reflexivity. }
    assert (E8 : forall rest, skipn 8 (addr ++ rest) = rest).
    { intros rest. rewrite skipn_app, Haddr, Nat.sub_diag.
      rewrite (skipn_all2 addr) by lia. reflexivity. }
    unfold tag_matches, slice, slice_from, rfsec_line.
    rewrite (E 1%nat), (E 16%nat), (E 31%nat).
    split; [reflexivity|].
    split; [rewrite !length_app, Hts, Haddr; simpl; lia|].
    split.
    - change (skipn 16 (lit " Rx RFSEC Addr: " ++ addr ++ lit " Func: "
                            ++ func ++ [ch]))
        with (addr ++ lit " Func: " ++ func ++ [ch]).
      change (38 - 30)%nat with 8%nat.
      rewrite firstn_app, Haddr, Nat.sub_diag.
      rewrite firstn_all2 by lia. cbn [firstn]. symmetry. apply app_nil_r.
    - change (skipn 31 (lit " Rx RFSEC Addr: " ++ addr ++ lit " Func: "
                            ++ func ++ [ch]))
        with (skipn 15 (addr ++ lit " Func: " ++ func ++ [ch])).
      change 15%nat with (8 + 7)%nat.
      rewrite <- (skipn_skipn 7 8), E8. reflexivity. }
  split; [rewrite Hstrip; exact Hev|].
  intros c b Hat Hb Hd.
  rewrite (read_step c b _ Hat Hb Hd), Hstrip, Hev. reflexivity.
Qed.

Lemma rfsec_line_round_trip_witness :
  event_of (rstrip (sample_line ++ lit " " ++ [13; 10]%N))
  = Some (lit "21:26:80", lit "Contact_alert_min_DS10A").
Proof.
  apply (rfsec_line_round_trip (lit "09/22 15:39:07") (lit "21:26:80")
           (lit "Contact_alert_min_DS10") 65%N (lit " " ++ [13; 10]%N));
    reflexivity.
Defined.

(** ** The dispatcher *)

(** X3.  A dispatch starts with its request.  When the request returns
    a response, the response is released once, right after, whatever its
    status, and at most one log line follows; when the request raises,
    nothing is released and the log line is all that follows. *)
Theorem dispatch_message_releases now post release addr func s :
  exists rq rest,
    snd (dispatch_message now post release addr func s)
    = EvPost rq (post rq) :: rest
    /\ match post rq with
       | Ok rsp =>
         exists rest',
           rest = EvRelease rsp (release rsp) :: rest'
           /\ releases rest' = []
           /\ (rest' = [] \/ exists m, rest' = [EvLog INFO m])
       | Raise e => releases rest = [] /\ exists m, rest = [EvLog INFO m]
       end.
Proof.
  pose proof (dispatch_message_cases now post release addr func s) as H.
  cbv zeta in H.
  match type of H with context [post ?r] => set (rq := r) in * end.
  rewrite H. cbn [snd]. exists rq. eexists. split; [reflexivity|].
  destruct (post rq) as [rsp|e].
  - eexists. split; [reflexivity|].
    destruct (release rsp) as [[]|e];
      [destruct (status rsp =? 200)%Z|];
      (split; [reflexivity|]); eauto.
  - split; [reflexivity|]. eauto.
Qed.

Lemma split_first_app sep a b :
  forallb (fun c => negb (c =? sep)%N) a = true ->
  split_first sep (a ++ sep :: b) = Some (a, b).
Proof.
  induction a as [|c a IH]; intros H; simpl.
  - rewrite N.eqb_refl. reflexivity.
  - simpl in H. apply andb_true_iff in H. destruct H as [Hc Ha].
    apply negb_true_iff in Hc. rewrite Hc, (IH Ha). reflexivity.
Qed.

Lemma digits_not_separator w : forall n,
  forallb not_separator (digits w n) = true.
Proof.
  induction w as [|w IH]; intros n; simpl; [reflexivity|].
  rewrite forallb_app, IH. simpl.
  unfold digit_char.
  assert (H : (n mod 10 < 10)%N) by (apply N.mod_lt; discriminate).
  generalize dependent (n mod 10)%N. intros d H.
  replace (d <? 10)%N with true by (symmetry; apply N.ltb_lt; exact H).
  unfold not_separator.
  replace (48 + d =? 59)%N with false by (symmetry; apply N.eqb_neq; lia).
  replace (48 + d =? 38)%N with false by (symmetry; apply N.eqb_neq; lia).
  reflexivity.
Qed.

Lemma quoted_time_not_separator d :
  forallb not_separator (flat_map quote_byte (isoformat d)) = true.
Proof.
  rewrite quote_isoformat_fields.
  destruct (microsecond d =? 0)%N;
    repeat rewrite forallb_app; repeat rewrite digits_not_separator;
    reflexivity.
Qed.

(** X4.  The body of the request can be cut back into its two fields:
    the escaped timestamp holds neither [;] nor [&], so the text before
    the first [;] is the [dispatch_time] field and the text after it is
    [func=] followed by the function label, character for character,
    whatever the label contains. *)
Theorem dispatch_message_body_fields now post release addr func s :
  exists rq q,
    posts (snd (dispatch_message now post release addr func s)) = [rq]
    /\ quote (isoformat now) = Ok q
    /\ forallb not_separator q = true
    /\ split_first 59%N (data rq)
       = Some (lit "dispatch_time=" ++ q, lit "func=" ++ func).
Proof.
  eexists. exists (flat_map quote_byte (isoformat now)).
  split; [apply dispatch_message_posts|].
  split; [apply quote_isoformat|].
  split; [apply quoted_time_not_separator|].
  cbn [data].
  change (lit ";func=" ++ func) with (59%N :: lit "func=" ++ func).
  rewrite app_assoc. apply split_first_app.
  rewrite forallb_app. apply andb_true_iff. split; [reflexivity|].
  pose proof (quoted_time_not_separator now) as H.
  rewrite forallb_forall in *. intros c Hc. specialize (H c Hc).
  unfold not_separator in H. apply negb_true_iff in H.
  apply orb_false_iff in H. rewrite (proj1 H). reflexivity.
Qed.

(** ** The worker *)

Lemma worker_keeps_fields s env c tr :
  worker_run (worker s) env = Some (c, tr) ->
  host (self c) = host s /\ entry_point (self c) = entry_point s.
Proof.
  intros Hrun.
  apply (worker_run_invariant (fun _ => True)
           (fun c _ => host (self c) = host s
                       /\ entry_point (self c) = entry_point s))
    with (env := env) (c0 := worker s) (tr0 := []) (tr := tr).
  - intros c0 tr0 a c1 evs [Hh He] _ Hs.
    step_cases Hs; rewrite ?self_loop_top; cbn [self host entry_point
      set_reconnect_time set_streams]; auto.
  - unfold worker. rewrite self_loop_top. auto.
  - apply Forall_forall. intros; exact I.
  - exact Hrun.
Qed.

Lemma step_connect_target c a c1 h pt r evs :
  worker_step c a = Some (c1, EvConnect h pt r :: evs) ->
  h = host (self c) /\ pt = 1099%N.
Proof. intros H. step_cases H; auto. Qed.

(** X5.  A run of the worker never changes the host or the entry point
    of the client; every connection attempt of the run goes to that host
    on port 1099; and a dispatch made on the client as the run left it
    makes the events it would have made on the client at the start: what
    the worker does to the connection state does not reach it. *)
Theorem worker_keeps_configuration s env c tr :
  worker_run (worker s) env = Some (c, tr) ->
  host (self c) = host s
  /\ entry_point (self c) = entry_point s
  /\ (forall p h pt r q,
        tr = p ++ EvConnect h pt r :: q -> h = host s /\ pt = 1099%N)
  /\ (forall now post release addr func,
        snd (dispatch_message now post release addr func (self c))
        = snd (dispatch_message now post release addr func s)).
Proof.
  intros Hrun.
  destruct (worker_keeps_fields s env c tr Hrun) as [Hh He].
  split; [exact Hh|]. split; [exact He|]. split.
  - intros p h pt r q E.
    destruct (worker_run_split _ _ _ _ _ _ _ Hrun E eq_refl)
      as (env1 & a & env2 & c1 & c2 & evs & tr2 & _ & H1 & H2 & _ & _).
    destruct (step_connect_target _ _ _ _ _ _ _ H2) as [-> ->].
    split; [|reflexivity].
    apply (worker_keeps_fields s env1 c1 p H1).
  - intros now post release addr func.
    rewrite !dispatch_message_cases. cbv zeta. cbn [snd]. rewrite He.
    reflexivity.
Qed.

Lemma worker_keeps_configuration_witness :
  exists c tr,
    worker_run (worker sample_client) sample_session = Some (c, tr)
    /\ entry_point (self c) = lit "http://example.com/api/".
Proof.
  destruct (worker_run (worker sample_client) sample_session)
    as [[c tr]|] eqn:Hrun; [|vm_compute in Hrun; discriminate Hrun].
  exists c, tr. split; [reflexivity|].
  destruct (worker_keeps_configuration sample_client sample_session c tr Hrun)
    as (_ & He & _).
  rewrite He. reflexivity.
Defined.

(** A place in the trace of a run after one more step is a place in the
    trace before the step or a place in the events of the step. *)
Lemma app_split_at (tr : trace) : forall evs p x q,
  tr ++ evs = p ++ x :: q ->
  (exists q', tr = p ++ x :: q' /\ q = q' ++ evs)
  \/ (exists p', p = tr ++ p' /\ evs = p' ++ x :: q).
Proof.
  induction tr as [|e tr IH]; intros evs p x q E.
  - right. exists p. auto.
  - destruct p as [|y p]; simpl in E; injection E as -> E.
    + left. exists tr. auto.
    + destruct (IH _ _ _ _ E) as [(q' & -> & ->)|(p' & -> & ->)].
      * left. exists q'. auto.
      * right. exists p'. auto.
Qed.

(** The places of an event in the few events of one step. *)
Ltac short_places E p :=
  destruct p as [|? [|? [|? p]]]; simpl in E; try discriminate E;
  try (injection E; intros; subst; clear E).

Lemma spawn_inv_step c tr a c1 evs :
  spawn_inv c tr -> True -> worker_step c a = Some (c1, evs) ->
  spawn_inv c1 (tr ++ evs).
Proof.
  intros Hinv _ Hs p a0 f q E.
  destruct (app_split_at _ _ _ _ _ E) as [(q' & -> & ->)|(p' & -> & Hevs)].
  - exact (Hinv _ _ _ _ eq_refl).
  - step_cases Hs; short_places Hevs p'.
    exists tr. eexists. eexists. split; [reflexivity|].
    split; [eassumption|].
    unfold event_of.
    repeat match goal with H : _ = _ |- _ => rewrite H end.
    reflexivity.
Qed.

Lemma spawn_inv_run s env c tr :
  worker_run (worker s) env = Some (c, tr) -> spawn_inv c tr.
Proof.
  intros Hrun.
  apply (worker_run_invariant (fun _ => True) spawn_inv spawn_inv_step
           env (worker s) [] c tr).
  - intros p a f q E. destruct p; discriminate E.
  - apply Forall_forall. intros; exact I.
  - exact Hrun.
Qed.

(** X6.  In every run of the worker, a dispatch is spawned only right
    after a line has been read, and only for a line that, decoded and
    stripped, carries the tag: the address is the eight characters at
    offsets 30..37 of that text and the function its characters from
    offset 45 on, which are at least one and do not end with a white
    character. *)
Theorem worker_spawns_only_events s env c tr :
  worker_run (worker s) env = Some (c, tr) ->
  forall p a f q,
    tr = p ++ EvSpawn a f :: q ->
    exists p' b raw,
      p = p' ++ [EvReadline (Ok b)]
      /\ decode b = Ok raw
      /\ tag_matches (rstrip raw)
      /\ a = slice 30 38 (rstrip raw)
      /\ f = slice_from 45 (rstrip raw)
      /\ List.length a = 8%nat
      /\ exists f' ch, f = f' ++ [ch] /\ isspace ch = false.
Proof.
  intros Hrun p a f q E.
  destruct (spawn_inv_run s env c tr Hrun p a f q E)
    as (p' & b & raw & -> & Hd & Hev).
  apply event_of_some_inv in Hev. destruct Hev as (Ht & Hl & Ha & Hf).
  exists p', b, raw.
  repeat (split; [assumption || reflexivity|]).
  split.
  - subst a. unfold slice. rewrite length_firstn, length_skipn. lia.
  - assert (Hne : f <> []).
    { subst f. unfold slice_from. intros H.
      apply (f_equal (@List.length _)) in H.
      rewrite length_skipn in H. simpl in H. lia. }
    destruct (exists_last Hne) as (f' & ch & Hlast).
    exists f', ch. split; [exact Hlast|].
    apply (rstrip_last raw (firstn 45 (rstrip raw) ++ f') ch).
    rewrite <- app_assoc, <- Hlast, Hf. unfold slice_from.
    symmetry. apply firstn_skipn.
Qed.

Lemma worker_spawns_only_events_witness :
  exists c tr,
    worker_run (worker sample_client) sample_session = Some (c, tr)
    /\ spawned tr = [(lit "21:26:80", lit "Contact_alert_min_DS10A")].
Proof.
  destruct (worker_run (worker sample_client) sample_session)
    as [[c tr]|] eqn:Hrun; [|vm_compute in Hrun; discriminate Hrun].
  exists c, tr. split; [reflexivity|].
  pose proof (worker_spawns_only_events sample_client sample_session c tr Hrun)
    as Hsp.
  pose proof Hrun as Hval. vm_compute in Hval. injection Hval as Hc Htr.
  destruct (Hsp (firstn 3 tr) (lit "21:26:80") (lit "Contact_alert_min_DS10A")
              (skipn 4 tr)) as (p' & b & raw & _).
  - rewrite <- Htr. reflexivity.
  - rewrite <- Htr. reflexivity.
Defined.

Lemma stream_open_app tr evs :
  stream_open (tr ++ evs) = fold_left opens evs (stream_open tr).
Proof. apply fold_left_app. Qed.

Lemma stream_ended_app tr evs :
  stream_ended (tr ++ evs) = fold_left ends evs (stream_ended tr).
Proof. apply fold_left_app. Qed.

Lemma stream_inv_step c tr a c1 evs :
  stream_inv c tr -> True -> worker_step c a = Some (c1, evs) ->
  stream_inv c1 (tr ++ evs).
Proof.
  intros Hinv _ Hs. unfold stream_inv in *.
  rewrite stream_open_app, stream_ended_app.
  step_cases Hs;
    repeat match goal with
           | H : at_ c = _ |- _ => rewrite H in Hinv
           end;
    rewrite ?at_loop_top;
    cbn [self at_ fold_left opens ends];
    try exact I; try exact Hinv; try (split; reflexivity);
    try (destruct (nonzero _); exact Hinv);
    try reflexivity.
  - split; [reflexivity | apply Hinv].
  - destruct (nonzero _); (split; [reflexivity | apply Hinv]).
  - rewrite Heqp. exact Hinv.
  - rewrite Heqp. exact Hinv.
Qed.

Lemma stream_inv_run s env c tr :
  worker_run (worker s) env = Some (c, tr) -> stream_inv c tr.
Proof.
  intros Hrun.
  apply (worker_run_invariant (fun _ => True) stream_inv stream_inv_step
           env (worker s) [] c tr).
  - unfold stream_inv, worker. rewrite at_loop_top.
    destruct (nonzero _); split; reflexivity.
  - apply Forall_forall. intros; exact I.
  - exact Hrun.
Qed.

Lemma step_opened_by_readline c a c1 r evs :
  worker_step c a = Some (c1, EvReadline r :: evs) -> at_ c = Reading.
Proof. intros H. step_cases H; reflexivity. Qed.

Lemma stream_open_since p :
  stream_open p = true ->
  exists pre h pt hd mid,
    p = pre ++ EvConnect h pt (Ok hd) :: mid
    /\ forallb keeps_open mid = true.
Proof.
  induction p as [|e p IH] using rev_ind; intros H; [discriminate H|].
  rewrite stream_open_app in H. cbn [fold_left] in H.
  assert (Hkeep : keeps_open e = true -> stream_open p = true ->
                  exists pre h pt hd mid,
                    p ++ [e] = pre ++ EvConnect h pt (Ok hd) :: mid
                    /\ forallb keeps_open mid = true).
  { intros Hk Hp. destruct (IH Hp) as (pre & h & pt & hd & mid & -> & Hmid).
    exists pre, h, pt, hd, (mid ++ [e]).
    rewrite <- app_assoc. split; [reflexivity|].
    rewrite forallb_app, Hmid. simpl. rewrite Hk. reflexivity. }
  destruct e as [| |h pt [hd|]|[[|]|]| | | |];
    try (apply Hkeep; [reflexivity | exact H]);
    try discriminate H.
  exists p, h, pt, hd, []. auto.
Qed.

Lemma stream_ended_since mid : forall b,
  fold_left ends mid b = true -> b = false ->
  In (EvReadline (Ok [])) mid.
Proof.
  induction mid as [|e mid IH]; intros b H Hb; simpl in H; [congruence|].
  destruct e as [| |h pt [hd|]|[[|]|]| | | |];
    try (right; exact (IH _ H Hb));
    try (right; exact (IH _ H eq_refl)).
  left. reflexivity.
Qed.

(** X7.  The worker reads only from an open connection and connects
    only when it has none.  Before every read of a run there is a
    successful connection with no further attempt, no end of the stream
    and no failed read between the two; and between a successful
    connection and any later attempt the end of the stream has been
    read. *)
Theorem worker_reads_while_connected s env c tr :
  worker_run (worker s) env = Some (c, tr) ->
  (forall p r q,
      tr = p ++ EvReadline r :: q ->
      exists pre h pt hd mid,
        p = pre ++ EvConnect h pt (Ok hd) :: mid
        /\ forallb keeps_open mid = true)
  /\ (forall pre h pt hd mid h' pt' r post,
        tr = pre ++ EvConnect h pt (Ok hd) :: mid
                 ++ EvConnect h' pt' r :: post ->
        In (EvReadline (Ok [])) mid).
Proof.
  intros Hrun. split.
  - intros p r q E.
    destruct (worker_run_split _ _ _ _ _ _ _ Hrun E eq_refl)
      as (env1 & a & env2 & c1 & c2 & evs & tr2 & _ & H1 & H2 & _ & _).
    apply step_opened_by_readline in H2.
    pose proof (stream_inv_run _ _ _ _ H1) as Hinv.
    unfold stream_inv in Hinv. rewrite H2 in Hinv.
    apply stream_open_since. exact Hinv.
  - intros pre h pt hd mid h' pt' r post E.
    change (pre ++ EvConnect h pt (Ok hd) :: mid ++ EvConnect h' pt' r :: post)
      with (pre ++ (EvConnect h pt (Ok hd) :: mid) ++ EvConnect h' pt' r :: post)
      in E.
    rewrite app_assoc in E.
    destruct (worker_run_split _ _ _ _ _ _ _ Hrun E eq_refl)
      as (env1 & a & env2 & c1 & c2 & evs & tr2 & _ & H1 & H2 & _ & _).
    apply step_opened_by_connect in H2.
    pose proof (stream_inv_run _ _ _ _ H1) as Hinv.
    unfold stream_inv in Hinv. rewrite H2 in Hinv. destruct Hinv as [_ Hend].
    rewrite stream_ended_app in Hend. cbn [fold_left ends] in Hend.
    exact (stream_ended_since _ _ Hend eq_refl).
Qed.

Lemma worker_reads_while_connected_witness :
  exists c tr,
    worker_run (worker sample_client) sample_session = Some (c, tr)
    /\ In (EvReadline (Ok [])) tr.
Proof.
  destruct (worker_run (worker sample_client) sample_session)
    as [[c tr]|] eqn:Hrun; [|vm_compute in Hrun; discriminate Hrun].
  exists c, tr. split; [reflexivity|].
  destruct (worker_reads_while_connected sample_client sample_session c tr Hrun)
    as [_ Hre].
  pose proof Hrun as Hval. vm_compute in Hval. injection Hval as Hc Htr.
  assert (Hin : In (EvReadline (Ok [])) (firstn 9 (skipn 1 tr))).
  { apply (Hre [] (lit "127.0.0.1") 1099%N 1%nat (firstn 9 (skipn 1 tr))
               (lit "127.0.0.1") 1099%N
               (Raise (OSError (lit "Connection refused")))
               (skipn 11 tr)).
    rewrite <- Htr. reflexivity. }
  rewrite <- (firstn_skipn 1 tr). apply in_or_app. right.
  rewrite <- (firstn_skipn 9 (skipn 1 tr)). apply in_or_app. left. exact Hin.
Defined.

Lemma end_inv_step c tr a c1 evs :
  worker_inv c tr /\ end_inv c tr -> True ->
  worker_step c a = Some (c1, evs) ->
  worker_inv c1 (tr ++ evs) /\ end_inv c1 (tr ++ evs).
Proof.
  intros [Hw _] _ Hs.
  split; [exact (worker_inv_step c tr a c1 evs Hw I Hs)|].
  destruct Hw as [Hclock Hpc]. unfold end_inv.
  step_cases Hs; rewrite ?at_loop_top; cbn [at_];
    try match goal with
        | |- context [if nonzero ?x then _ else _] => destruct (nonzero x)
        end;
    try exact I;
    try match goal with H : at_ c = Reading |- _ => rewrite H; exact I end.
  - (* the deadline has passed *)
    destruct Hpc as (_ & p & ->).
    exists p, t. rewrite <- app_assoc. split; [reflexivity|].
    rewrite episode_clock_app in Hclock. cbn [fold_left clock_after] in Hclock.
    rewrite <- Hclock. apply double_sub_gt_60. apply Qgtb_lt. assumption.
  - (* connect raised something else *)
    left. exists tr. eauto.
  - (* a line that is not UTF-8 *)
    right. right. exists tr. eexists. split; [reflexivity|].
    split; [discriminate | assumption].
  - (* readline raised *)
    right. left. exists tr. reflexivity.
Qed.

(** X9.  The ways the worker ends.  When it has returned, the last
    events of the run are a sleep, a reading of the time more than 60
    seconds past the reconnect clock, and the error line.  When it has
    raised, the run ends with a connection attempt that raised something
    other than [OSError], with a read that raised, or with a line that
    does not decode as UTF-8, and the exception is that one.  In both
    cases it takes no further step. *)
Theorem worker_ends s env c tr :
  reconnect_time s = 0 ->
  worker_run (worker s) env = Some (c, tr) ->
  (at_ c = Returned ->
   (exists p t,
       tr = p ++ [EvSleep 1; EvTime t;
                  EvLog ERROR (lit "Could not reconnect after 60s")]
       /\ 60 < t - episode_clock p)
   /\ forall a, worker_step c a = None)
  /\ (forall e,
        at_ c = Raised e ->
        ((exists p h pt, tr = p ++ [EvConnect h pt (Raise e)]
                         /\ is_OSError e = false)
         \/ (exists p, tr = p ++ [EvReadline (Raise e)])
         \/ (exists p b, tr = p ++ [EvReadline (Ok b)]
                         /\ b <> [] /\ decode b = Raise e))
        /\ forall a, worker_step c a = None).
Proof.
  intros H0 Hrun.
  assert (Hinv : worker_inv c ([] ++ tr) /\ end_inv c ([] ++ tr)).
  { apply (worker_run_invariant (fun _ => True)
             (fun c tr => worker_inv c tr /\ end_inv c tr) end_inv_step
             env (worker s) [] c tr).
    - split; [apply worker_inv_start; exact H0|].
      unfold end_inv, worker. rewrite at_loop_top.
      destruct (nonzero _); exact I.
    - apply Forall_forall. intros; exact I.
    - exact Hrun. }
  destruct Hinv as [_ Hend]. cbn [app] in Hend. unfold end_inv in Hend.
  split.
  - intros Hat. rewrite Hat in Hend. split; [exact Hend|].
    intros a. apply finished_no_step. left. exact Hat.
  - intros e Hat. rewrite Hat in Hend. split; [exact Hend|].
    intros a. apply finished_no_step. right. exists e. exact Hat.
Qed.

Lemma warn_inv_step c tr a c1 evs :
  worker_inv c tr /\ warn_inv c tr -> clock_positive a ->
  worker_step c a = Some (c1, evs) ->
  worker_inv c1 (tr ++ evs) /\ warn_inv c1 (tr ++ evs).
Proof.
  intros [Hw (Hnew & Hfail & Hpre)] Hpos Hs.
  split; [exact (worker_inv_step c tr a c1 evs Hw I Hs)|].
  destruct Hw as [_ Hpc]. unfold warn_inv. split; [|split].
  - step_cases Hs; rewrite ?at_loop_top, ?self_loop_top;
      cbn [self at_ set_reconnect_time set_streams reconnect_time];
      try (intros H; discriminate H).
    + intros _ H. destruct Hpc as [Hnz _]. congruence.
    + intros _ H.
      match goal with H1 : negb _ = false |- _ =>
        apply negb_false_iff in H1; congruence end.
    + intros _ H. subst a. rewrite (nonzero_positive _ Hpos) in H.
      discriminate H.
    + intros H. congruence.
    + intros H. congruence.
    + intros _ H. subst a. rewrite (nonzero_positive _ Hpos) in H.
      discriminate H.
  - step_cases Hs; rewrite ?at_loop_top;
      cbn [self at_];
      try (intros H; discriminate H);
      try (intros H; congruence);
      try (match goal with
           | |- context [if nonzero ?x then _ else _] => destruct (nonzero x)
           end; intros H; discriminate H).
    intros _.
    match goal with H : negb _ = true |- _ => apply negb_true_iff in H;
      rewrite (Hnew eq_refl H) end.
    destruct e; try discriminate. do 3 eexists. reflexivity.
  - intros p q E.
    destruct (app_split_at _ _ _ _ _ E) as [(q' & -> & ->)|(p' & -> & Hevs)].
    + exact (Hpre _ _ eq_refl).
    + unfold could_not_connect in Hevs.
      step_cases Hs; short_places Hevs p'; try (cbv in Hevs; discriminate Hevs).
      destruct (Hfail eq_refl) as (h & pt & m & ->).
      do 4 eexists. reflexivity.
Qed.

(** X8.  On a host whose clock is past the epoch, the warning of a
    failed attempt is logged at most once in a run, and only when the
    very first attempt fails: it is the third event of the run, after
    that attempt and the reading of the time.  Attempts that fail later,
    also those that follow a lost connection, are not warned of. *)
Theorem worker_warns_first_failure_only s env c tr :
  reconnect_time s = 0 ->
  Forall clock_positive env ->
  worker_run (worker s) env = Some (c, tr) ->
  forall p q,
    tr = p ++ could_not_connect :: q ->
    exists h pt m t, p = [EvConnect h pt (Raise (OSError m)); EvTime t].
Proof.
  intros H0 Hpos Hrun.
  assert (Hinv : worker_inv c ([] ++ tr) /\ warn_inv c ([] ++ tr)).
  { apply (worker_run_invariant clock_positive
             (fun c tr => worker_inv c tr /\ warn_inv c tr) warn_inv_step
             env (worker s) [] c tr).
    - split; [apply worker_inv_start; exact H0|].
      unfold warn_inv, worker. rewrite at_loop_top, self_loop_top, H0.
      split; [reflexivity|].
      split; [intros H; discriminate H|].
      intros p q Hp. destruct p; discriminate Hp.
    - exact Hpos.
    - exact Hrun. }
  destruct Hinv as [_ (_ & _ & Hpre)]. exact Hpre.
Qed.

Lemma worker_warns_first_failure_only_witness :
  exists c tr,
    worker_run (worker sample_client) sample_flap = Some (c, tr)
    /\ List.length (filter (fun e => match e with
                                     | EvConnect _ _ (Raise _) => true
                                     | _ => false
                                     end) tr) = 2%nat
    /\ nth_error tr 2 = Some could_not_connect.
Proof.
  destruct (worker_run (worker sample_client) sample_flap)
    as [[c tr]|] eqn:Hrun; [|vm_compute in Hrun; discriminate Hrun].
  exists c, tr. split; [reflexivity|].
  assert (Hpos : Forall clock_positive sample_flap) by (repeat constructor).
  pose proof (worker_warns_first_failure_only sample_client sample_flap c tr
                eq_refl Hpos Hrun) as Hw.
  pose proof Hrun as Hval. vm_compute in Hval. injection Hval as Hc Htr.
  destruct (Hw (firstn 2 tr) (skipn 3 tr)) as (h & pt & m & t & Hp).
  - rewrite <- Htr. reflexivity.
  - rewrite <- Htr. split; reflexivity.
Defined.

Lemma worker_ends_witness :
  exists c tr,
    worker_run (worker sample_client) sample_outage = Some (c, tr)
    /\ exists p t,
        tr = p ++ [EvSleep 1; EvTime t;
                   EvLog ERROR (lit "Could not reconnect after 60s")].
Proof.
  destruct (worker_run (worker sample_client) sample_outage)
    as [[c tr]|] eqn:Hrun; [|vm_compute in Hrun; discriminate Hrun].
  exists c, tr. split; [reflexivity|].
  destruct (worker_ends sample_client sample_outage c tr eq_refl Hrun)
    as [Hret _].
  pose proof Hrun as Hval. vm_compute in Hval. injection Hval as Hc Htr.
  destruct Hret as [(p & t & Hp & _) _].
  - rewrite <- Hc. reflexivity.
  - exists p, t. exact Hp.
Defined.

Lemma episode_fails_app tr evs :
  episode_fails (tr ++ evs) = fold_left fails_after evs (episode_fails tr).
Proof. apply fold_left_app. Qed.

Lemma inject_succ n :
  inject_Z (Z.of_nat (S n)) == inject_Z (Z.of_nat n) + 1.
Proof.
  rewrite Nat2Z.inj_succ. unfold Z.succ. rewrite inject_Z_plus. reflexivity.
Qed.

Lemma count_le_60 n a b : a + inject_Z (Z.of_nat n) <= b -> b - a < 61 ->
  (n <= 60)%nat.
Proof.
  intros H1 H2.
  assert (H : inject_Z (Z.of_nat n) < inject_Z 61).
  { change (inject_Z 61) with 61. lra. }
  rewrite <- Zlt_Qlt in H. lia.
Qed.

Lemma retry_inv_step c tr last slept a c1 evs :
  retry_inv c tr last slept -> tick_ok last slept a ->
  worker_step c a = Some (c1, evs) ->
  retry_inv c1 (tr ++ evs) (fst (tick last slept a)) (snd (tick last slept a)).
Proof.
  intros [Hle Hpc] Hok Hs. unfold retry_inv.
  rewrite episode_fails_app.
  step_cases Hs;
    repeat match goal with
           | H : negb _ = true |- _ => apply negb_true_iff in H
           | H : negb _ = false |- _ => apply negb_false_iff in H
           end;
    rewrite ?at_loop_top, ?self_loop_top;
    cbn [self at_ fold_left fails_after tick fst snd tick_ok
         set_reconnect_time set_streams reconnect_time] in *.
  - (* the sleep is over *)
    destruct Hpc as [Hnz Hn]. auto.
  - (* the deadline has passed *)
    auto.
  - (* the deadline has not passed *)
    destruct Hpc as (Hnz & Hn & ->). destruct Hok as [_ Ht].
    split; [exact Hle|]. rewrite Hnz. split; [lra|].
    apply Qnot_le_lt. intros Hlate. apply double_sub_ge_61 in Hlate.
    apply Qgtb_lt in Hlate. congruence.
  - (* connected *)
    split; [lia | reflexivity].
  - (* first failure of an episode *)
    match goal with H : nonzero _ = false |- _ => rewrite H in Hpc end.
    rewrite Hpc. split; [lia|]. split; [assumption | reflexivity].
  - (* later failure *)
    match goal with H : nonzero _ = true |- _ => rewrite H in *; rename H into Hnz end.
    destruct Hpc as [Hn H60].
    pose proof (count_le_60 _ _ _ Hn H60) as Hc.
    split; [lia|]. split; [reflexivity|].
    pose proof (inject_succ (episode_fails tr)) as Hs. lra.
  - (* connect raised something else *)
    split; [|exact I].
    destruct (nonzero (reconnect_time (self c))).
    + destruct Hpc as [Hn H60].
      pose proof (count_le_60 _ _ _ Hn H60). lia.
    + rewrite Hpc. lia.
  - (* the clock starts after a failed attempt *)
    destruct Hpc as [_ Hone]. destruct Hok as [Hpos _].
    split; [exact Hle|].
    rewrite (nonzero_positive _ Hpos). split; [reflexivity|].
    rewrite Hone. change (inject_Z (Z.of_nat 1)) with 1. lra.
  - (* end of stream *)
    auto.
  - (* a line, dispatched *)
    match goal with H : at_ c = Reading |- _ => rewrite H end. auto.
  - (* a line, ignored *)
    match goal with H : at_ c = Reading |- _ => rewrite H end. auto.
  - (* a line that is not UTF-8 *)
    auto.
  - (* readline raised *)
    auto.
  - (* the clock starts after the stream closed *)
    destruct Hok as [Hpos _].
    split; [exact Hle|].
    rewrite (nonzero_positive _ Hpos). split; [reflexivity|].
    rewrite Hpc. change (inject_Z (Z.of_nat 0)) with 0. lra.
Qed.

Lemma retry_inv_run env : forall c tr last slept c' tr',
  retry_inv c tr last slept -> ticking last slept env ->
  worker_run c env = Some (c', tr') ->
  exists last' slept', retry_inv c' (tr ++ tr') last' slept'.
Proof.
  induction env as [|a env IH]; intros c tr last slept c' tr' Hinv Htick Hrun.
  - simpl in Hrun. injection Hrun as <- <-. rewrite app_nil_r. eauto.
  - simpl in Hrun. destruct Htick as [Hok Htick].
    destruct (worker_step c a) as [[c1 evs]|] eqn:Hs; [|discriminate].
    destruct (worker_run c1 env) as [[c2 tr2]|] eqn:Hr; [|discriminate].
    injection Hrun as <- <-. rewrite app_assoc.
    apply (IH c1 (tr ++ evs) (fst (tick last slept a))
              (snd (tick last slept a)) c2 tr2); [|exact Htick|exact Hr].
    apply (retry_inv_step c); assumption.
Qed.

(** X10.  Let the clock of the host be past the epoch, never go back,
    and have advanced by a second or more whenever it is read after a
    sleep.  Then at every point of a run the worker has made at most 61
    failed connection attempts since its last successful connection (or
    since the start): the 60-second deadline bounds the retries of an
    episode. *)
Theorem worker_retries_bounded s env c tr :
  reconnect_time s = 0 ->
  ticking 0 false env ->
  worker_run (worker s) env = Some (c, tr) ->
  (episode_fails tr <= 61)%nat.
Proof.
  intros H0 Htick Hrun.
  destruct (retry_inv_run env (worker s) [] 0 false c tr) as (l & sl & Hle & _).
  - unfold retry_inv, worker. rewrite at_loop_top, self_loop_top, H0.
    split; [cbn; lia | reflexivity].
  - exact Htick.
  - exact Hrun.
  - exact Hle.
Qed.

Lemma worker_retries_bounded_witness :
  exists c tr,
    worker_run (worker sample_client) sample_outage = Some (c, tr)
    /\ episode_fails tr = 2%nat.
Proof.
  destruct (worker_run (worker sample_client) sample_outage)
    as [[c tr]|] eqn:Hrun; [|vm_compute in Hrun; discriminate Hrun].
  exists c, tr. split; [reflexivity|].
  assert (Htick : ticking 0 false sample_outage).
  { cbn. repeat split; reflexivity || (intros H; discriminate H). }
  pose proof (worker_retries_bounded sample_client sample_outage c tr
                eq_refl Htick Hrun) as Hle.
  pose proof Hrun as Hval. vm_compute in Hval. injection Hval as Hc Htr.
  rewrite <- Htr in *. reflexivity.
Defined.

(** ** The stand-alone read loop *)

Lemma read_messages_finished st r rs :
  st <> RmReading -> read_messages st (r :: rs) = None.
Proof. intros H. destruct st; [congruence| |]; destruct r; reflexivity. Qed.

Lemma worker_run_not_reading c r rs :
  at_ c = Lost \/ (exists e, at_ c = Raised e) ->
  worker_run c (List.map Line (r :: rs)) = None.
Proof.
  intros [H|[e H]]; simpl; unfold worker_step; rewrite H; reflexivity.
Qed.

(** X11.  [read_messages] and the read loop inside [worker] are the same
    loop.  On the same answers of [readline], started where the worker
    reads, both read the same lines and spawn the same dispatches in
    the same order; [read_messages] returns exactly when the worker
    leaves its loop for a lost connection (the worker then logs its
    warning), raises exactly when the worker raises, with the same
    exception, and takes no answer after that, as the worker takes no
    line.  Neither changes the client. *)
Theorem read_messages_is_read_loop (rs : list (result bytes)) :
  forall c,
    at_ c = Reading ->
    match read_messages RmReading rs with
    | Some (st, tr) =>
      exists c',
        self c' = self c
        /\ match st with
           | RmReading =>
             at_ c' = Reading
             /\ worker_run c (List.map Line rs) = Some (c', tr)
           | RmReturned =>
             at_ c' = Lost
             /\ worker_run c (List.map Line rs)
                = Some (c', tr ++ [EvLog WARN
                                     (lit "Lost connection to mochad. Retrying.")])
           | RmRaised e =>
             at_ c' = Raised e
             /\ worker_run c (List.map Line rs) = Some (c', tr)
           end
    | None => worker_run c (List.map Line rs) = None
    end.
Proof.
  induction rs as [|r rs IH]; intros c Hat.
  - simpl. exists c. auto.
  - cbn [read_messages List.map worker_run].
    unfold read_messages_step, worker_step. rewrite Hat.
    destruct r as [[|b0 b]|e].
    + (* end of the stream *)
      destruct rs as [|r' rs].
      * simpl. exists {| self := self c; at_ := Lost |}.
        split; [|split]; reflexivity.
      * rewrite read_messages_finished by discriminate.
        rewrite worker_run_not_reading by (left; reflexivity). reflexivity.
    + destruct (decode (b0 :: b)) as [text|e].
      * destruct (parse_mochad_line (rstrip text)) as [addr func].
        destruct (truthy addr && truthy func);
          specialize (IH c Hat);
          destruct (read_messages RmReading rs) as [[st tr]|];
          try (rewrite IH; reflexivity);
          destruct IH as (c' & Hself & Hst); exists c';
          (split; [exact Hself|]);
          destruct st as [| |e]; destruct Hst as [Hat' ->];
          (split; [exact Hat' | reflexivity]).
      * destruct rs as [|r' rs].
        -- simpl. exists {| self := self c; at_ := Raised e |}.
           split; [|split]; reflexivity.
        -- rewrite read_messages_finished by discriminate.
           rewrite worker_run_not_reading
             by (right; eexists; reflexivity).
           reflexivity.
    + destruct rs as [|r' rs].
      * simpl. exists {| self := self c; at_ := Raised e |}.
        split; [|split]; reflexivity.
      * rewrite read_messages_finished by discriminate.
        rewrite worker_run_not_reading by (right; eexists; reflexivity).
        reflexivity.
Qed.

Lemma read_messages_is_read_loop_witness :
  exists tr,
    read_messages RmReading (List.map (@Ok bytes) sample_lines ++ [Ok []])
    = Some (RmReturned, tr)
    /\ spawned tr = [(lit "21:26:80", lit "Contact_alert_min_DS10A");
                     (lit "21:26:80", lit "Contact_normal_min_DS10A")].
Proof.
  pose proof (read_messages_is_read_loop
                (List.map (@Ok bytes) sample_lines ++ [Ok []])
                {| self := sample_client; at_ := Reading |} eq_refl) as H.
  destruct (read_messages RmReading
              (List.map (@Ok bytes) sample_lines ++ [Ok []]))
    as [[st tr]|] eqn:Hrm; [|vm_compute in Hrm; discriminate Hrm].
  pose proof Hrm as Hval. vm_compute in Hval. injection Hval as Hst Htr.
  exists tr. rewrite <- Hst. split; [reflexivity|].
  rewrite <- Htr. reflexivity.
Defined.

(** ** The program *)

Lemma worker_first_event s env c tr :
  reconnect_time s = 0 ->
  worker_run (worker s) env = Some (c, tr) ->
  tr = [] \/ exists r rest, tr = EvConnect (host s) 1099 r :: rest.
Proof.
  intros H0 Hrun. destruct env as [|a env]; simpl in Hrun.
  - injection Hrun as _ <-. left. reflexivity.
  - right.
    destruct (worker_step (worker s) a) as [[c1 evs]|] eqn:Hs; [|discriminate].
    destruct (worker_run c1 env) as [[c2 tr2]|]; [|discriminate].
    injection Hrun as _ <-.
    unfold worker, loop_top in Hs. rewrite H0 in Hs.
    change (nonzero 0) with false in Hs. cbv iota in Hs.
    unfold worker_step in Hs. cbn [at_ self] in Hs.
    destruct a as [| |[h|e]|]; try discriminate Hs.
    + injection Hs as _ <-. eexists. eexists. reflexivity.
    + destruct (is_OSError e); [destruct (negb _)|];
        injection Hs as _ <-; eexists; eexists; reflexivity.
Qed.

(** X12.  The start of the program.  With an entry point whose scheme,
    as [urlparse] gives it, is neither [http] nor [https], the program
    writes [<prog>: error: unsupported URL scheme '<scheme>'] and a
    newline on the standard error and exits with status 1: no client is
    built and no daemon started.  With the scheme [http] or [https] and
    an entry point that is not empty, it starts the daemon on a client
    for the given server whose entry point ends with [/] and whose
    reconnect clock is unset, and the first thing every run of its
    worker does is a connection attempt to that server on port 1099. *)
Theorem main_start urlparse_scheme prog server foreground ep :
  let scheme := urlparse_scheme ep in
  (scheme <> lit "https" /\ scheme <> lit "http" ->
   main urlparse_scheme prog server foreground ep
   = Exit 1 (prog ++ lit ": error: unsupported URL scheme '" ++ scheme
                  ++ lit "'" ++ [10%N]))
  /\ (scheme = lit "https" \/ scheme = lit "http" ->
      ep <> [] ->
      exists s,
        main urlparse_scheme prog server foreground ep
        = Daemon foreground (Ok (worker s))
        /\ host s = server
        /\ ends_with_slash (entry_point s)
        /\ reconnect_time s = 0
        /\ forall env c tr,
            worker_run (worker s) env = Some (c, tr) ->
            tr = [] \/ exists r rest, tr = EvConnect server 1099 r :: rest).
Proof.
  intros scheme. split.
  - intros [H1 H2]. unfold main. fold scheme.
    apply str_eqb_neq in H1, H2. rewrite H1, H2. cbn [negb andb].
    unfold errordie. rewrite <- !app_assoc. reflexivity.
  - intros Hs Hne.
    assert (Hok : negb (str_eqb scheme (lit "https"))
                  && negb (str_eqb scheme (lit "http")) = false).
    { destruct Hs as [-> | ->]; reflexivity. }
    unfold main. fold scheme. rewrite Hok. unfold daemon_main.
    destruct (exists_last Hne) as (b & ch & ->).
    unfold __init__, last_char. rewrite rev_app_distr. cbn [rev app].
    eexists. split; [reflexivity|]. cbn [host entry_point reconnect_time].
    split; [reflexivity|]. split.
    { destruct (N.eqb_spec ch 47) as [->|Hc]; cbn [negb].
      - exists b. reflexivity.
      - exists (b ++ [ch]). reflexivity. }
    split; [reflexivity|].
    intros env c tr Hrun.
    refine (worker_first_event _ env c tr _ Hrun). reflexivity.
Qed.

Lemma main_start_witness :
  main sample_scheme (lit "mochad_dispatch") (lit "127.0.0.1") false
       (lit "ftp://example.com/")
  = Exit 1 (lit "mochad_dispatch: error: unsupported URL scheme 'ftp'" ++ [10%N])
  /\ exists s,
      main sample_scheme (lit "mochad_dispatch") (lit "127.0.0.1") false
           (lit "http://example.com/api")
      = Daemon false (Ok (worker s))
      /\ host s = lit "127.0.0.1".
Proof.
  split.
  - apply (proj1 (main_start sample_scheme (lit "mochad_dispatch")
                    (lit "127.0.0.1") false (lit "ftp://example.com/"))).
    split; intros H; vm_compute in H; discriminate H.
  - destruct (proj2 (main_start sample_scheme (lit "mochad_dispatch")
                       (lit "127.0.0.1") false (lit "http://example.com/api")))
      as (s & Hm & Hh & _).
    + right. reflexivity.
    + discriminate.
    + exists s. split; assumption.
Defined.

Lemma loss_owed_app tr evs :
  loss_owed (tr ++ evs) = fold_left owes_after_loss evs (loss_owed tr).
Proof. apply fold_left_app. Qed.

Lemma loss_inv_step c tr a c1 evs :
  loss_inv c tr -> clock_positive a -> worker_step c a = Some (c1, evs) ->
  loss_inv c1 (tr ++ evs).
Proof.
  intros Hinv Hpos Hs. unfold loss_inv in *.
  rewrite loss_owed_app.
  step_cases Hs;
    repeat match goal with
           | H : at_ c = _ |- _ => rewrite H in Hinv
           end;
    rewrite ?at_loop_top;
    cbn [self at_ fold_left owes_after_loss set_reconnect_time reconnect_time];
    try (intros _; exact I);
    try exact Hinv;
    try (intros H; discriminate H);
    try (intros H; destruct (Hinv H));
    try match goal with H : at_ c = ?x |- _ -> match at_ c with _ => _ end =>
          rewrite H; exact Hinv
        end.
  simpl in Hpos. rewrite (nonzero_positive _ Hpos). exact I.
Qed.

Lemma loss_cleared mid : forall b,
  fold_left owes_after_loss mid b = false ->
  b = true ->
  exists secs, In (EvSleep secs) mid /\ 1 <= secs.
Proof.
  induction mid as [|e mid IH]; intros b H Hb; simpl in H; [congruence|].
  destruct e as [secs| | |[[|]|]| | | |];
    try (destruct (IH _ H Hb) as (s0 & Hin & Hle);
         exists s0; split; [right; exact Hin | exact Hle]);
    try (destruct (IH _ H eq_refl) as (s0 & Hin & Hle);
         exists s0; split; [right; exact Hin | exact Hle]).
  simpl in H. destruct (Qle_bool 1 secs) eqn:Hq.
  - exists secs. split; [left; reflexivity|]. apply Qle_bool_iff. exact Hq.
  - destruct (IH _ H Hb) as (s0 & Hin & Hle).
    exists s0. split; [right; exact Hin | exact Hle].
Qed.

(** X13.  On a host whose clock is past the epoch, the worker never
    reconnects at once after a lost connection: between the read that
    found the end of the stream and any later connection attempt there
    is a sleep of a second or more. *)
Theorem worker_sleeps_after_loss s env c tr :
  Forall clock_positive env ->
  worker_run (worker s) env = Some (c, tr) ->
  forall pre mid h pt r post,
    tr = pre ++ EvReadline (Ok []) :: mid ++ EvConnect h pt r :: post ->
    exists secs, In (EvSleep secs) mid /\ 1 <= secs.
Proof.
  intros Hpos Hrun pre mid h pt r post E.
  change (pre ++ EvReadline (Ok []) :: mid ++ EvConnect h pt r :: post)
    with (pre ++ (EvReadline (Ok []) :: mid) ++ EvConnect h pt r :: post) in E.
  rewrite app_assoc in E.
  destruct (worker_run_split _ _ _ _ _ _ _ Hrun E eq_refl)
    as (env1 & a & env2 & c1 & c2 & evs & tr2 & -> & H1 & H2 & _ & _).
  apply step_opened_by_connect in H2.
  apply Forall_app in Hpos. destruct Hpos as [Hpos1 _].
  assert (Hinv : loss_inv c1 ([] ++ pre ++ EvReadline (Ok []) :: mid)).
  { apply (worker_run_invariant clock_positive loss_inv loss_inv_step
             env1 (worker s) [] c1 _).
    - intros H. discriminate H.
    - exact Hpos1.
    - exact H1. }
  cbn [app] in Hinv. unfold loss_inv in Hinv. rewrite H2 in Hinv.
  destruct (loss_owed (pre ++ EvReadline (Ok []) :: mid)) eqn:Hso;
    [destruct (Hinv eq_refl)|].
  rewrite loss_owed_app in Hso. simpl in Hso.
  exact (loss_cleared _ _ Hso eq_refl).
Qed.

Lemma worker_sleeps_after_loss_witness :
  exists c tr,
    worker_run (worker sample_client) sample_session = Some (c, tr)
    /\ exists secs, In (EvSleep secs) tr /\ 1 <= secs.
Proof.
  destruct (worker_run (worker sample_client) sample_session)
    as [[c tr]|] eqn:Hrun; [|vm_compute in Hrun; discriminate Hrun].
  exists c, tr. split; [reflexivity|].
  assert (Hpos : Forall clock_positive sample_session).
  { repeat (apply Forall_cons || apply Forall_nil); simpl;
      exact I || reflexivity. }
  pose proof (worker_sleeps_after_loss sample_client sample_session c tr
                Hpos Hrun) as Hsl.
  pose proof Hrun as Hval. vm_compute in Hval. injection Hval as Hc Htr.
  destruct (Hsl (firstn 5 tr) (firstn 4 (skipn 6 tr)) (lit "127.0.0.1") 1099%N
              (Raise (OSError (lit "Connection refused"))) (skipn 11 tr))
    as (secs & Hin & Hle).
  - rewrite <- Htr. reflexivity.
  - exists secs. split; [|exact Hle].
    rewrite <- (firstn_skipn 6 tr). apply in_or_app. right.
    rewrite <- (firstn_skipn 4 (skipn 6 tr)). apply in_or_app. left. exact Hin.
Defined.
